(** * hherman1/auth: tokens, credentials and the HTTP filter

    A shallow embedding of the Go package: the token text encoding
    ([Token.String], [Token.UnmarshalText], on top of encoding/base64's
    standard encoding), the SQL statements of the credential and token
    stores run against an in-memory picture of the two tables, the
    transaction of [DBAuthenticator.Authenticate], and the HTTP handlers of
    [AuthFilter] and [AuthServer]. *)

From Stdlib Require Import ZArith List String Ascii Bool Lia.
From Stdlib Require Import DecimalString.
Import ListNotations.

Local Open Scope Z_scope.
Local Open Scope string_scope.

Set Implicit Arguments.

(* ================================================================= *)
(** ** Go values: errors, byte slices, outcomes *)

(** A Go [error]; [nil] is [None : option error].  The sentinel values of
    the package and of the libraries it calls are constructors;
    [Errorf p e] is [fmt.Errorf(p + ": %w", e)] and [ErrorfV] a
    [fmt.Errorf] without a wrapped error. *)
Inductive error : Type :=
| errBadCredentials
| errInvalidToken
| ErrNoRows
| ErrMismatchedHashAndPassword
| ErrNoCookie
| CorruptInputError (pos : Z)
| ExternalError (msg : string)
| Errorf (prefix : string) (cause : error)
| ErrorfV (msg : string).

Fixpoint error_eqb (a b : error) : bool :=
  match a, b with
  | errBadCredentials, errBadCredentials => true
  | errInvalidToken, errInvalidToken => true
  | ErrNoRows, ErrNoRows => true
  | ErrMismatchedHashAndPassword, ErrMismatchedHashAndPassword => true
  | ErrNoCookie, ErrNoCookie => true
  | CorruptInputError p, CorruptInputError q => Z.eqb p q
  | ExternalError m, ExternalError m' => String.eqb m m'
  | Errorf p e, Errorf p' e' => String.eqb p p' && error_eqb e e'
  | ErrorfV m, ErrorfV m' => String.eqb m m'
  | _, _ => false
  end.

(** [errors.Is]: walks the chain of wrapped errors. *)
Fixpoint errors_Is (err target : error) : bool :=
  if error_eqb err target then true
  else match err with
       | Errorf _ cause => errors_Is cause target
       | _ => false
       end.

(** [errors.Is(err, target)] on a possibly nil [err]. *)
Definition Is (err : option error) (target : error) : bool :=
  match err with
  | Some e => errors_Is e target
  | None => false
  end.

Definition string_of_Z (z : Z) : string :=
  NilZero.string_of_int (Z.to_int z).

(** The [Error()] text of an error, as [%v] prints it. *)
Fixpoint Error (e : error) : string :=
  match e with
  | errBadCredentials =>
      "failed to authenticate, username or password is incorrect"
  | errInvalidToken => "invalid token"
  | ErrNoRows => "sql: no rows in result set"
  | ErrMismatchedHashAndPassword =>
      "crypto/bcrypt: hashedPassword is not the hash of the given password"
  | ErrNoCookie => "http: named cookie not present"
  | CorruptInputError p =>
      "illegal base64 data at input byte " ++ string_of_Z p
  | ExternalError m => m
  | Errorf p cause => p ++ ": " ++ Error cause
  | ErrorfV m => m
  end.

(** What a call does: it returns, or it panics (an index out of range).
    [OutOfFuel] is the loop bound of the model being hit; [Decode_total]
    shows that it never is. *)
Inductive outcome (A : Type) : Type :=
| Return (a : A)
| Panic (msg : string)
| OutOfFuel.
Arguments Panic {A} msg.
Arguments OutOfFuel {A}.

(** A [byte] is a [Z] in [0, 256); [byte_of] is the conversion [byte(x)]. *)
Definition byte_of (x : Z) : Z := x mod 256.
Definition is_byte (b : Z) : Prop := 0 <= b < 256.

Definition bytes_of_string (s : string) : list Z :=
  map (fun a => Z.of_N (N_of_ascii a)) (list_ascii_of_string s).

Definition string_of_bytes (l : list Z) : string :=
  string_of_list_ascii (map (fun b => ascii_of_N (Z.to_N b)) l).

(** [dst[i] = v] on the backing array; [None] is the index-out-of-range
    panic. *)
Fixpoint store (dst : list Z) (i : nat) (v : Z) : option (list Z) :=
  match dst, i with
  | [], _ => None
  | _ :: tl, O => Some (v :: tl)
  | hd :: tl, S i' =>
      match store tl i' v with
      | Some tl' => Some (hd :: tl')
      | None => None
      end
  end.

(** Consecutive stores [dst[i] = v0; dst[i+1] = v1; ...]. *)
Fixpoint stores (dst : list Z) (i : nat) (vs : list Z) : option (list Z) :=
  match vs with
  | [] => Some dst
  | v :: vs' =>
      match store dst i v with
      | Some dst' => stores dst' (S i) vs'
      | None => None
      end
  end.

(* ================================================================= *)
(** ** encoding/base64, [StdEncoding] *)

(** The encoder and the decoder of Go's standard library, which the token
    text encoding is built on, function by function: [Encode],
    [decodeQuantum], [assemble32], [assemble64] and the three loops of
    [Decode].  A slice [dst[n:]] is its backing array and the offset [n]; a
    position [si] in [src] comes with the rest [src[si:]] of the input. *)

Module base64.

Definition encodeStd : string :=
  "ABCDEFGHIJKLMNOPQRSTUVWXYZabcdefghijklmnopqrstuvwxyz0123456789+/".

Definition padChar : Z := 61.  (* '=' *)

(** [enc.encode[i]] *)
Definition encode (i : Z) : Z :=
  nth (Z.to_nat i) (bytes_of_string encodeStd) 0.

Fixpoint index_of (c : Z) (l : list Z) (i : Z) : option Z :=
  match l with
  | [] => None
  | x :: l' => if Z.eqb x c then Some i else index_of c l' (i + 1)
  end.

(** [enc.decodeMap[c]]: the digit of [c], [0xff] for a byte outside the
    alphabet. *)
Definition decodeMap (c : Z) : Z :=
  match index_of c (bytes_of_string encodeStd) 0 with
  | Some i => i
  | None => 255
  end.

(** [Encode]: three source bytes give four digits; the remaining one or
    two bytes give a padded group. *)
Fixpoint Encode (src : list Z) : list Z :=
  match src with
  | [] => []
  | [b0] =>
      let val := Z.shiftl b0 16 in
      [ encode (Z.land (Z.shiftr val 18) 63);
        encode (Z.land (Z.shiftr val 12) 63);
        padChar; padChar ]
  | [b0; b1] =>
      let val := Z.lor (Z.shiftl b0 16) (Z.shiftl b1 8) in
      [ encode (Z.land (Z.shiftr val 18) 63);
        encode (Z.land (Z.shiftr val 12) 63);
        encode (Z.land (Z.shiftr val 6) 63);
        padChar ]
  | b0 :: b1 :: b2 :: src' =>
      let val := Z.lor (Z.lor (Z.shiftl b0 16) (Z.shiftl b1 8)) b2 in
      encode (Z.land (Z.shiftr val 18) 63)
      :: encode (Z.land (Z.shiftr val 12) 63)
      :: encode (Z.land (Z.shiftr val 6) 63)
      :: encode (Z.land val 63)
      :: Encode src'
  end.

Definition EncodeToString (src : list Z) : string :=
  string_of_bytes (Encode src).

Definition isNewline (c : Z) : bool := Z.eqb c 10 || Z.eqb c 13.

(** [for si < len(src) && (src[si] == '\n' || src[si] == '\r') { si++ }],
    on the part of [src] from [si] on. *)
Fixpoint skipNewlines (rest : list Z) (si : nat) : list Z * nat :=
  match rest with
  | c :: rest' => if isNewline c then skipNewlines rest' (S si) else (rest, si)
  | [] => (rest, si)
  end.

(** How the digit loop of [decodeQuantum] ends: with a [return], or by
    leaving the loop with [dlen] digits in [dbuf]. *)
Inductive qread : Type :=
| QReturn (rest : list Z) (si : nat) (err : option error)
| QBreak (rest : list Z) (si : nat) (dlen : nat) (dbuf : list Z)
         (err : option error).

(** The input a [qread] leaves unread. *)
Definition qread_rest (q : qread) : list Z :=
  match q with
  | QReturn rest _ _ => rest
  | QBreak rest _ _ _ _ => rest
  end.

Definition posErr (p : Z) : option error := Some (CorruptInputError p).

(** The loop [for j := 0; j < len(dbuf); j++] of [decodeQuantum]; [rest] is
    [src[si:]].  A newline leaves [j] as it is ([j--] and then [j++]); the
    store [dbuf[j] = out] is in range, [j] being below 4. *)
Fixpoint readQuantum (rest : list Z) (si : nat) (j : nat) (dbuf : list Z)
  : qread :=
  if (4 <=? j)%nat then QBreak rest si 4 dbuf None
  else
    match rest with
    | [] =>
        match j with
        | O => QReturn rest si None
        | _ => QReturn rest si (posErr (Z.of_nat si - Z.of_nat j))
        end
    | c :: rest' =>
        let si := S si in
        let out := decodeMap c in
        if negb (Z.eqb out 255) then
          match store dbuf j out with
          | Some dbuf' => readQuantum rest' si (S j) dbuf'
          | None => QReturn rest' si None
          end
        else if isNewline c then readQuantum rest' si j dbuf
        else if negb (Z.eqb c padChar) then
          QReturn rest' si (posErr (Z.of_nat si - 1))
        else
          match j with
          | O | S O => QReturn rest' si (posErr (Z.of_nat si - 1))
          | S (S O) =>
              let '(rest1, si1) := skipNewlines rest' si in
              match rest1 with
              | [] => QReturn rest1 si1 (posErr (Z.of_nat si1))
              | c2 :: rest2 =>
                  if negb (Z.eqb c2 padChar) then
                    QReturn rest1 si1 (posErr (Z.of_nat si1 - 1))
                  else
                    let '(rest3, si3) := skipNewlines rest2 (S si1) in
                    QBreak rest3 si3 j dbuf
                      (match rest3 with
                       | [] => None
                       | _ => posErr (Z.of_nat si3)
                       end)
              end
          | _ =>
              let '(rest3, si3) := skipNewlines rest' si in
              QBreak rest3 si3 j dbuf
                (match rest3 with
                 | [] => None
                 | _ => posErr (Z.of_nat si3)
                 end)
          end
    end.

(** The state of [Decode]: the backing array of [dst], the count [n] of
    bytes written, and the position [si] in [src] with [rest = src[si:]]. *)
Record dstate : Type := mkD {
  d_dst : list Z;
  d_n : nat;
  d_rest : list Z;
  d_si : nat
}.

Definition index_panic : string := "runtime error: index out of range".

(** [si, ninc, err = enc.decodeQuantum(dst[n:], src, si); n += ninc]. *)
Definition decodeQuantum (s : dstate) : outcome (dstate * option error) :=
  match readQuantum (d_rest s) (d_si s) 0 [0; 0; 0; 0] with
  | QReturn rest si err => Return (mkD (d_dst s) (d_n s) rest si, err)
  | QBreak rest si dlen dbuf err =>
      let val :=
        Z.lor (Z.lor (Z.lor (Z.shiftl (nth 0 dbuf 0) 18)
                            (Z.shiftl (nth 1 dbuf 0) 12))
                     (Z.shiftl (nth 2 dbuf 0) 6))
              (nth 3 dbuf 0) in
      let b2 := byte_of (Z.shiftr val 0) in
      let b1 := byte_of (Z.shiftr val 8) in
      let b0 := byte_of (Z.shiftr val 16) in
      let n := d_n s in
      let writes : list (nat * Z) :=
        match dlen with
        | 4%nat => [((n + 2)%nat, b2); ((n + 1)%nat, b1); (n, b0)]
        | 3%nat => [((n + 1)%nat, b1); (n, b0)]
        | 2%nat => [(n, b0)]
        | _ => []
        end in
      match fold_left
              (fun acc w => match acc with
                            | Some d => store d (fst w) (snd w)
                            | None => None
                            end)
              writes (Some (d_dst s)) with
      | Some dst' => Return (mkD dst' (n + (dlen - 1))%nat rest si, err)
      | None => Panic index_panic
      end
  end.

Definition assemble64 (n1 n2 n3 n4 n5 n6 n7 n8 : Z) : option Z :=
  if Z.eqb (Z.lor n1 (Z.lor n2 (Z.lor n3 (Z.lor n4
             (Z.lor n5 (Z.lor n6 (Z.lor n7 n8))))))) 255
  then None
  else Some (Z.lor (Z.shiftl n1 58) (Z.lor (Z.shiftl n2 52)
            (Z.lor (Z.shiftl n3 46) (Z.lor (Z.shiftl n4 40)
            (Z.lor (Z.shiftl n5 34) (Z.lor (Z.shiftl n6 28)
            (Z.lor (Z.shiftl n7 22) (Z.shiftl n8 16)))))))).

Definition assemble32 (n1 n2 n3 n4 : Z) : option Z :=
  if Z.eqb (Z.lor n1 (Z.lor n2 (Z.lor n3 n4))) 255
  then None
  else Some (Z.lor (Z.shiftl n1 26) (Z.lor (Z.shiftl n2 20)
            (Z.lor (Z.shiftl n3 14) (Z.shiftl n4 8)))).

(** The bytes [binary.BigEndian.PutUint64] and [PutUint32] store. *)
Definition be64 (v : Z) : list Z :=
  map (fun k => byte_of (Z.shiftr v k)) [56; 48; 40; 32; 24; 16; 8; 0].
Definition be32 (v : Z) : list Z :=
  map (fun k => byte_of (Z.shiftr v k)) [24; 16; 8; 0].

(** The third loop: [for si < len(src)]. *)
Fixpoint loopTail (fuel : nat) (s : dstate)
  : outcome (list Z * nat * option error) :=
  match d_rest s with
  | [] => Return (d_dst s, d_n s, None)
  | _ =>
      match fuel with
      | O => OutOfFuel
      | S fuel' =>
          match decodeQuantum s with
          | Return (s', Some e) => Return (d_dst s', d_n s', Some e)
          | Return (s', None) => loopTail fuel' s'
          | Panic m => Panic m
          | OutOfFuel => OutOfFuel
          end
      end
  end.

(** The second loop: [for len(src)-si >= 4 && len(dst)-n >= 4]. *)
Fixpoint loop32 (fuel : nat) (s : dstate)
  : outcome (list Z * nat * option error) :=
  match d_rest s with
  | c1 :: c2 :: c3 :: c4 :: rest' =>
      if (4 <=? List.length (d_dst s) - d_n s)%nat then
        match fuel with
        | O => OutOfFuel
        | S fuel' =>
            match assemble32 (decodeMap c1) (decodeMap c2)
                             (decodeMap c3) (decodeMap c4) with
            | Some dn =>
                match stores (d_dst s) (d_n s) (be32 dn) with
                | Some dst' =>
                    loop32 fuel'
                      (mkD dst' (d_n s + 3)%nat rest' (d_si s + 4)%nat)
                | None => Panic index_panic
                end
            | None =>
                match decodeQuantum s with
                | Return (s', Some e) => Return (d_dst s', d_n s', Some e)
                | Return (s', None) => loop32 fuel' s'
                | Panic m => Panic m
                | OutOfFuel => OutOfFuel
                end
            end
        end
      else loopTail fuel s
  | _ => loopTail fuel s
  end.

(** The first loop, on a 64-bit platform:
    [for strconv.IntSize >= 64 && len(src)-si >= 8 && len(dst)-n >= 8]. *)
Fixpoint loop64 (fuel : nat) (s : dstate)
  : outcome (list Z * nat * option error) :=
  match d_rest s with
  | c1 :: c2 :: c3 :: c4 :: c5 :: c6 :: c7 :: c8 :: rest' =>
      if (8 <=? List.length (d_dst s) - d_n s)%nat then
        match fuel with
        | O => OutOfFuel
        | S fuel' =>
            match assemble64 (decodeMap c1) (decodeMap c2)
                             (decodeMap c3) (decodeMap c4)
                             (decodeMap c5) (decodeMap c6)
                             (decodeMap c7) (decodeMap c8) with
            | Some dn =>
                match stores (d_dst s) (d_n s) (be64 dn) with
                | Some dst' =>
                    loop64 fuel'
                      (mkD dst' (d_n s + 6)%nat rest' (d_si s + 8)%nat)
                | None => Panic index_panic
                end
            | None =>
                match decodeQuantum s with
                | Return (s', Some e) => Return (d_dst s', d_n s', Some e)
                | Return (s', None) => loop64 fuel' s'
                | Panic m => Panic m
                | OutOfFuel => OutOfFuel
                end
            end
        end
      else loop32 fuel s
  | _ => loop32 fuel s
  end.

(** [n, err := enc.Decode(dst, src)], with the contents [dst] is left
    with. *)
Definition Decode (dst src : list Z)
  : outcome (list Z * nat * option error) :=
  match src with
  | [] => Return (dst, O, None)
  | _ => loop64 (S (List.length src)) (mkD dst 0 src 0)
  end.

End base64.

(* ================================================================= *)
(** ** Tokens and their text encoding *)

(** [type Token [16]byte]; the array is the list of its sixteen bytes. *)
Definition Token : Type := list Z.

Definition is_token (t : Token) : Prop :=
  List.length t = 16%nat /\ Forall is_byte t.

(** [var t Token] *)
Definition zeroToken : Token := repeat 0 16.

(** [func (t Token) String() string] *)
Definition Token_String (t : Token) : string := base64.EncodeToString t.

(** [func (t Token) MarshalText() ([]byte, error)] *)
Definition MarshalText (t : Token) : list Z * option error :=
  (bytes_of_string (Token_String t), None).

(** [func (t *Token) UnmarshalText(text []byte) error]: the receiver [t]
    is the array the decoder writes to; the result is the receiver after
    the call and the error. *)
Definition UnmarshalText (t : Token) (text : list Z)
  : outcome (Token * option error) :=
  match base64.Decode t text with
  | Return (t', n, Some err) =>
      Return (t', Some (Errorf "token: base64 decode" err))
  | Return (t', n, None) =>
      if negb (Nat.eqb n 16) then
        Return (t', Some (ErrorfV ("token: expected 16 bytes, was "
                                   ++ string_of_Z (Z.of_nat (List.length text)))))
      else Return (t', None)
  | Panic m => Panic m
  | OutOfFuel => OutOfFuel
  end.

(* ================================================================= *)
(** ** Time *)

(** A [time.Time] is an instant, counted in nanoseconds from the Unix
    epoch; a [time.Duration] is a count of nanoseconds. *)
Definition Time : Type := Z.
Definition Duration : Type := Z.

Definition Millisecond : Duration := 1000000.
Definition Second : Duration := 1000 * Millisecond.
Definition Hour : Duration := 3600 * Second.

Definition Time_Add (t : Time) (d : Duration) : Time := t + d.

(** Conversion to a Go [int64], wrapping around. *)
Definition int64 (x : Z) : Z := (x + 2 ^ 63) mod 2 ^ 64 - 2 ^ 63.

(** [t.UnixMilli()]: whole milliseconds since the epoch, rounded down, as
    an [int64]. *)
Definition UnixMilli (t : Time) : Z := int64 (t / Millisecond).

(** [time.UnixMilli(ms)] *)
Definition Time_UnixMilli (ms : Z) : Time := ms * Millisecond.

(* ================================================================= *)
(** ** The store: tables, connections, transactions *)

(** The rows of the two tables [Initialize] creates, in insertion order. *)
Record UserRow : Type := mkUserRow {
  ID : string;          (* TEXT NOT NULL PRIMARY KEY *)
  EMAIL : string;       (* TEXT NOT NULL UNIQUE *)
  BCRYPT : list Z;      (* BLOB NOT NULL *)
  VALID : bool          (* BOOLEAN DEFAULT FALSE NOT NULL *)
}.

Record TokenRow : Type := mkTokenRow {
  UID : string;         (* TEXT NOT NULL *)
  TOKEN : list Z;       (* BLOB NOT NULL PRIMARY KEY *)
  START_TIME : Z;       (* INTEGER NOT NULL *)
  END_TIME : Z          (* INTEGER NOT NULL *)
}.

Record Tables : Type := mkTables {
  USER_table : list UserRow;
  TOKEN_table : list TokenRow
}.

(** The statements the package sends. *)
Inductive statement : Type :=
| SELECT_BCRYPT_FROM_USER
| SELECT_ID_FROM_USER
| SELECT_UID_FROM_TOKEN
| INSERT_INTO_USER
| INSERT_INTO_TOKEN
| DELETE_FROM_TOKEN.

(** The [conn] interface ([sql.DB], [sql.Tx], [sql.Conn]): the tables it
    reads and writes, and for each statement the failure of the driver, if
    any (I/O, a cancelled context, ...), that cuts it short. *)
Record conn : Type := mkConn {
  tables : Tables;
  failure : statement -> option error
}.

(** A [*sql.DB]: a connection, and whether opening and committing a
    transaction fail. *)
Record DB : Type := mkDB {
  db_conn : conn;
  BeginTx_err : option error;
  Commit_err : option error
}.

Fixpoint bytes_eqb (a b : list Z) : bool :=
  match a, b with
  | [], [] => true
  | x :: a', y :: b' => Z.eqb x y && bytes_eqb a' b'
  | _, _ => false
  end.

(** [db.QueryRowContext(...).Scan(&v)]: the selected column of the first
    row that satisfies the WHERE clause, in the order in which the store
    comes to the rows, and [sql.ErrNoRows] when no row does. *)
Definition QueryRow_Scan {R A : Type} (db : conn) (q : statement)
  (from : Tables -> list R) (where_ : R -> bool) (select : R -> A)
  : A + error :=
  match failure db q with
  | Some e => inr e
  | None =>
      match find where_ (from (tables db)) with
      | Some r => inl (select r)
      | None => inr ErrNoRows
      end
  end.

Definition with_tables (db : conn) (tb : Tables) : conn :=
  mkConn tb (failure db).

Definition constraint_failed (what : string) : error :=
  ExternalError ("constraint failed: UNIQUE constraint failed: " ++ what).

(** [func ReapTokens(ctx, db, olderThan) error]:
    [DELETE FROM TOKEN WHERE END_TIME < ?;] *)
Definition ReapTokens (db : conn) (olderThan : Time) : conn * option error :=
  match failure db DELETE_FROM_TOKEN with
  | Some err => (db, Some (Errorf "drop rows" err))
  | None =>
      let tb := tables db in
      (with_tables db
         (mkTables (USER_table tb)
            (filter (fun r => negb (END_TIME r <? UnixMilli olderThan)%Z)
                    (TOKEN_table tb))),
       None)
  end.

(** [func GenerateToken(ctx, db, uid, start, end) (Token, error)].
    [rnd] is what [rand.Read(t[:])] does in this call: the bytes [t] holds
    afterwards and the error.  The INSERT is refused when the primary key
    [TOKEN] is already there; the foreign key on [UID] is not enforced
    (TestTokenGeneration stores a token for a user that has no row). *)
Definition GenerateToken (rnd : Token * option error) (db : conn)
  (uid : string) (start end_ : Time) : conn * (Token * option error) :=
  let '(t, err) := rnd in
  match err with
  | Some err => (db, (t, Some (Errorf "read random" err)))
  | None =>
      match failure db INSERT_INTO_TOKEN with
      | Some err => (db, (t, Some (Errorf "insert" err)))
      | None =>
          let tb := tables db in
          if existsb (fun r => bytes_eqb (TOKEN r) t) (TOKEN_table tb) then
            (db, (t, Some (Errorf "insert" (constraint_failed "TOKEN.TOKEN"))))
          else
            (with_tables db
               (mkTables (USER_table tb)
                  (TOKEN_table tb
                   ++ [mkTokenRow uid t (UnixMilli start) (UnixMilli end_)])),
             (t, None))
      end
  end.

(** [func LookupByEmail(ctx, db, email) (string, error)]:
    [SELECT ID FROM USER WHERE EMAIL=?] *)
Definition LookupByEmail (db : conn) (email : string)
  : string * option error :=
  match QueryRow_Scan db SELECT_ID_FROM_USER USER_table
          (fun r => String.eqb (EMAIL r) email) ID with
  | inl uid => (uid, None)
  | inr err =>
      if errors_Is err ErrNoRows then ("", Some errBadCredentials)
      else ("", Some (Errorf "parse uid" err))
  end.

(** [func Lookup(ctx, db, t, now) (string, error)]:
    [SELECT UID FROM TOKEN WHERE TOKEN=? AND START_TIME <= ? AND
     END_TIME >= ?] *)
Definition Lookup (db : conn) (t : Token) (now : Time)
  : string * option error :=
  match QueryRow_Scan db SELECT_UID_FROM_TOKEN TOKEN_table
          (fun r => bytes_eqb (TOKEN r) t
                    && (START_TIME r <=? UnixMilli now)%Z
                    && (END_TIME r >=? UnixMilli now)%Z) UID with
  | inl uid => (uid, None)
  | inr err =>
      if errors_Is err ErrNoRows then ("", Some errInvalidToken)
      else ("", Some (Errorf "parse uid" err))
  end.

(** The libraries the credential store calls: [mail.ParseAddress] (its
    error), [bcrypt.GenerateFromPassword] and
    [bcrypt.CompareHashAndPassword]. *)
Record Libraries : Type := mkLibraries {
  mail_ParseAddress : string -> option error;
  bcrypt_GenerateFromPassword : list Z -> Z -> list Z + error;
  bcrypt_CompareHashAndPassword : list Z -> list Z -> option error
}.

Definition bcrypt_DefaultCost : Z := 10.

(** [func RegisterUser(ctx, db, id, email, password) error]:
    [INSERT INTO USER(id, email, bcrypt) VALUES (?,?,?);] which the
    UNIQUE column [EMAIL] and the primary key [ID] can refuse.  SQLite
    checks the index of [EMAIL] first, so that is the one it names when
    both are taken. *)
Definition RegisterUser (lib : Libraries) (db : conn)
  (id email password : string) : conn * option error :=
  match mail_ParseAddress lib email with
  | Some err =>
      (db, Some (Errorf ("parsing email address '" ++ email ++ "'") err))
  | None =>
      match bcrypt_GenerateFromPassword lib (bytes_of_string password)
              bcrypt_DefaultCost with
      | inr err => (db, Some (Errorf "hash pw" err))
      | inl hash =>
          match failure db INSERT_INTO_USER with
          | Some err => (db, Some (Errorf "insert user" err))
          | None =>
              let tb := tables db in
              if existsb (fun r => String.eqb (EMAIL r) email)
                         (USER_table tb) then
                (db, Some (Errorf "insert user"
                             (constraint_failed "USER.EMAIL")))
              else if existsb (fun r => String.eqb (ID r) id)
                              (USER_table tb) then
                (db, Some (Errorf "insert user" (constraint_failed "USER.ID")))
              else
                (with_tables db
                   (mkTables (USER_table tb ++ [mkUserRow id email hash false])
                             (TOKEN_table tb)),
                 None)
          end
      end
  end.

(** The rows of [USER] as SQLite comes to them for
    [WHERE ID = ? OR EMAIL = ?]: it answers each term from the index of
    its column, [ID] first, so a row whose [ID] matches comes before every
    row that only its [EMAIL] selects. *)
Definition USER_by_index (idOrEmail : string) (tb : Tables) : list UserRow :=
  filter (fun r => String.eqb (ID r) idOrEmail) (USER_table tb)
  ++ filter (fun r => String.eqb (EMAIL r) idOrEmail) (USER_table tb).

(** [func Authenticate(ctx, db, idOrEmail, password) error]:
    [SELECT BCRYPT FROM USER WHERE ID = ? OR EMAIL = ?;] *)
Definition Authenticate (lib : Libraries) (db : conn)
  (idOrEmail password : string) : option error :=
  match QueryRow_Scan db SELECT_BCRYPT_FROM_USER (USER_by_index idOrEmail)
          (fun r => String.eqb (ID r) idOrEmail
                    || String.eqb (EMAIL r) idOrEmail) BCRYPT with
  | inr err =>
      if errors_Is err ErrNoRows then Some errBadCredentials
      else Some (Errorf "parse bcrypt" err)
  | inl hash =>
      match bcrypt_CompareHashAndPassword lib hash
              (bytes_of_string password) with
      | Some err =>
          if errors_Is err ErrMismatchedHashAndPassword
          then Some errBadCredentials
          else Some (Errorf "compare password to hash" err)
      | None => None
      end
  end.

(** What the surroundings give one call of
    [DBAuthenticator.Authenticate]: the two readings of [time.Now()] and
    the outcome of [rand.Read]. *)
Record Ambient : Type := mkAmbient {
  now_first : Time;
  now_second : Time;
  rand_Read : Token * option error
}.

Module DBAuthenticator.

(** [func (d DBAuthenticator) Validate(ctx, t) error] *)
Definition Validate (now : Time) (d : DB) (t : Token) : option error :=
  match Lookup (db_conn d) t now with
  | (_, Some err) => Some err
  | (_, None) => None
  end.

Definition with_conn (d : DB) (c : conn) : DB :=
  mkDB c (BeginTx_err d) (Commit_err d).

(** [func (d DBAuthenticator) Register(ctx, email, password) error] *)
Definition Register (lib : Libraries) (d : DB) (email password : string)
  : DB * option error :=
  match RegisterUser lib (db_conn d) email email password with
  | (c, Some err) => (with_conn d c, Some err)
  | (c, None) => (with_conn d c, None)
  end.

(** [func (d DBAuthenticator) Authenticate(ctx, email, password)
    (Token, time.Time, error)].  The transaction [tx] works on its own
    copy of the tables; the deferred [tx.Rollback()] drops the copy on
    every return that comes before the commit, a commit that fails leaves
    the database as it was, and a commit that succeeds installs the
    copy. *)
Definition Authenticate (lib : Libraries) (env : Ambient) (d : DB)
  (email password : string) : DB * (Token * Time * option error) :=
  let expiration := Time_Add (now_first env) (24 * Hour) in
  let t := zeroToken in
  match BeginTx_err d with
  | Some err => (d, (t, expiration, Some (Errorf "open transaction" err)))
  | None =>
      let tx := db_conn d in
      match Authenticate lib tx email password with
      | Some err => (d, (t, expiration, Some (Errorf "authorization" err)))
      | None =>
          match LookupByEmail tx email with
          | (_, Some err) =>
              (d, (t, expiration, Some (Errorf "lookup email" err)))
          | (uid, None) =>
              match GenerateToken (rand_Read env) tx uid
                      (Time_Add (now_second env) (- Second)) expiration with
              | (_, (t, Some err)) =>
                  (d, (t, expiration, Some (Errorf "generate token" err)))
              | (tx', (t, None)) =>
                  match Commit_err d with
                  | Some err =>
                      (d, (t, expiration, Some (Errorf "commit" err)))
                  | None => (with_conn d tx', (t, expiration, None))
                  end
              end
          end
      end
  end.

End DBAuthenticator.

(* ================================================================= *)
(** ** net/http and net/url, as far as the handlers use them *)

(** [url.QueryEscape]: letters, digits and [-_.~] stay, a space becomes
    [+], every other byte becomes [%XX]. *)
Definition upperhex (n : Z) : Z :=
  nth (Z.to_nat n) (bytes_of_string "0123456789ABCDEF") 0.

Definition shouldEscape (c : Z) : bool :=
  if ((97 <=? c) && (c <=? 122) || (65 <=? c) && (c <=? 90)
      || (48 <=? c) && (c <=? 57))%Z then false
  else if ((c =? 45) || (c =? 95) || (c =? 46) || (c =? 126))%Z then false
  else true.

Definition escapeByte (c : Z) : list Z :=
  if shouldEscape c then
    if (c =? 32)%Z then [43]
    else [37; upperhex (Z.shiftr c 4); upperhex (Z.land c 15)]
  else [c].

Definition QueryEscape (s : string) : string :=
  string_of_bytes (flat_map escapeByte (bytes_of_string s)).

(** The parts of an [*http.Request] the handlers read: the method,
    [r.URL.String()], [r.URL.RawQuery], the parsed query [r.URL.Query()],
    the cookies, the result of [r.ParseForm()] and the form it fills. *)
Record Request : Type := mkRequest {
  Method : string;
  URL_String : string;
  URL_RawQuery : string;
  URL_Query : list (string * string);
  Cookies : list (string * string);
  ParseForm : option error;
  PostForm : list (string * string)
}.

(** [Values.Get(key)], [r.PostFormValue(key)]: the first value, or the
    empty string. *)
Definition Values_Get (vs : list (string * string)) (key : string) : string :=
  match find (fun kv => String.eqb (fst kv) key) vs with
  | Some kv => snd kv
  | None => ""
  end.

Definition PostFormValue (r : Request) (key : string) : string :=
  Values_Get (PostForm r) key.

(** [r.Cookie(name)] *)
Definition Cookie (r : Request) (name : string) : string + error :=
  match find (fun kv => String.eqb (fst kv) name) (Cookies r) with
  | Some kv => inl (snd kv)
  | None => inr ErrNoCookie
  end.

(** What has been sent through an [http.ResponseWriter]: the header map,
    the status line once it is written, the body so far. *)
Record ResponseWriter : Type := mkResponse {
  Header : list (string * string);
  status : option Z;
  body : string
}.

Definition emptyResponse : ResponseWriter := mkResponse [] None "".

Definition StatusOK : Z := 200.
Definition StatusFound : Z := 302.
Definition StatusBadRequest : Z := 400.
Definition StatusUnauthorized : Z := 401.
Definition StatusInternalServerError : Z := 500.

Definition Header_Set (h : list (string * string)) (k v : string)
  : list (string * string) :=
  (k, v) :: filter (fun kv => negb (String.eqb (fst kv) k)) h.

(** [w.WriteHeader(code)]: the first status written stands. *)
Definition WriteHeader (w : ResponseWriter) (code : Z) : ResponseWriter :=
  match status w with
  | Some _ => w
  | None => mkResponse (Header w) (Some code) (body w)
  end.

(** [w.Write(b)]: writes the status 200 first when none was written. *)
Definition Write (w : ResponseWriter) (b : string) : ResponseWriter :=
  let w := WriteHeader w StatusOK in
  mkResponse (Header w) (status w) (body w ++ b).

Definition newline : string := String (ascii_of_nat 10) EmptyString.
Definition dquote : string := String (ascii_of_nat 34) EmptyString.

(** [http.Error(w, msg, code)] *)
Definition http_Error (w : ResponseWriter) (msg : string) (code : Z)
  : ResponseWriter :=
  let h := Header_Set (Header_Set (Header w)
                         "Content-Type" "text/plain; charset=utf-8")
                      "X-Content-Type-Options" "nosniff" in
  Write (WriteHeader (mkResponse h (status w) (body w)) code) (msg ++ newline).

(** [http.Redirect(w, r, url, code)], as the call the handlers make: the
    url it is given is kept under [Location] and the status line is
    written.  net/http goes further with the url: one without scheme and
    host is resolved against the path of the request and cleaned before it
    is sent, and on a GET a content type and a short HTML body are added.
    What a client finds under [Location] is therefore not stated from this
    definition; the statements name the call and its arguments. *)
Definition http_Redirect (w : ResponseWriter) (r : Request) (url : string)
  (code : Z) : ResponseWriter :=
  WriteHeader (mkResponse (Header_Set (Header w) "Location" url)
                          (status w) (body w)) code.

(** The [Validator] and [Authenticator] interfaces; [S] is the state behind
    the implementation (the database, for [DBAuthenticator]). *)
Record Validator (S : Type) : Type := mkValidator {
  Validate : S -> Token -> option error
}.

Record Authenticator (S : Type) : Type := mkAuthenticator {
  Authenticate_method : S -> string -> string -> S * (Token * Time * option error);
  Register_method : S -> string -> string -> S * option error
}.

Record AuthFilter (S : Type) : Type := mkAuthFilter {
  filter_Validator : Validator S;
  LoginURL : string
}.

(** What a handler leaves behind: the response and the lines it logged. *)
Record Served : Type := mkServed {
  response : ResponseWriter;
  logged : list string
}.

Module AuthFilter.

(** [func (a AuthFilter) Handler(h) http.Handler], applied to one request:
    the handler function it returns, run on [w] and [r].  [Panic] is the
    handler panicking: net/http recovers, logs and drops the connection,
    and no response goes out. *)
Definition Handler {S : Type} (a : AuthFilter S)
  (h : Token -> ResponseWriter -> Request -> ResponseWriter)
  (s : S) (w : ResponseWriter) (r : Request) : outcome Served :=
  let redirectURL :=
    LoginURL a ++ "?redirect=" ++ QueryEscape (URL_String r) in
  match Cookie r "auth_token" with
  | inr err =>
      Return (mkServed (http_Redirect w r redirectURL StatusFound)
                ["error: redirecting: reading auth_token cookie: "
                 ++ Error err])
  | inl c_Value =>
      match UnmarshalText zeroToken (bytes_of_string c_Value) with
      | Panic m => Panic m
      | OutOfFuel => OutOfFuel
      | Return (t, Some err) =>
          Return (mkServed (http_Redirect w r redirectURL StatusFound)
                    ["error: redirecting: parsing auth_token cookie: "
                     ++ Error err])
      | Return (t, None) =>
          match Validate (filter_Validator a) s t with
          | Some err =>
              Return (mkServed (http_Redirect w r redirectURL StatusFound)
                        ["error: redirecting: invalid auth_token cookie: "
                         ++ Error err])
          | None => Return (mkServed (h t w r) [])
          end
      end
  end.

End AuthFilter.

Module AuthServer.

(** The page the GET branches write. *)
Definition formPage (title action other otherText rawQuery : string)
  : string :=
  newline ++ "<html>" ++ newline
  ++ "	<body>" ++ newline
  ++ "		<h1> " ++ title ++ " </h1>" ++ newline
  ++ "		<form action=" ++ dquote ++ action ++ "?" ++ rawQuery ++ dquote
  ++ " method=" ++ dquote ++ "post" ++ dquote ++ ">" ++ newline
  ++ "			<input name=email type=text placeholder=" ++ dquote ++ "Email"
  ++ dquote ++ " />" ++ newline
  ++ "			<input name=password type=password placeholder=" ++ dquote
  ++ "Password" ++ dquote ++ " />" ++ newline
  ++ "			<input type=submit />" ++ newline
  ++ "		</form>" ++ newline
  ++ "		<a href=" ++ dquote ++ other ++ "?" ++ rawQuery ++ dquote ++ "> "
  ++ otherText ++ " </a>" ++ newline
  ++ "	</body>" ++ newline
  ++ "</html>".

(** [func (a AuthServer) loginPageHandler(w, r)].  [fmtTime] is
    [expires.Format(time.RFC3339)]. *)
Definition loginPageHandler {S : Type} (fmtTime : Time -> string)
  (a : Authenticator S) (s : S) (w : ResponseWriter) (r : Request)
  : S * ResponseWriter :=
  if String.eqb (Method r) "GET" then
    (s, Write w (formPage "Login" "login" "signup" "Sign Up" (URL_RawQuery r)))
  else if negb (String.eqb (Method r) "POST") then
    (s, http_Error w ("invalid method: " ++ Method r) StatusBadRequest)
  else
    match ParseForm r with
    | Some err =>
        (s, http_Error w ("parse form: " ++ Error err) StatusBadRequest)
    | None =>
        let email := PostFormValue r "email" in
        let password := PostFormValue r "password" in
        let '(s', (t, expires, err)) :=
          Authenticate_method a s email password in
        if Is err errBadCredentials then
          (s', http_Error w ("authenticate: " ++ Error errBadCredentials)
                 StatusUnauthorized)
        else
          match err with
          | Some err =>
              (s', http_Error w ("authenticate: " ++ Error err)
                     StatusInternalServerError)
          | None =>
              let w :=
                mkResponse
                  (Header_Set (Header w) "Set-Cookie"
                     ("auth_token=" ++ Token_String t ++ "; Expires="
                      ++ fmtTime expires ++ "; Secure; Path=/"))
                  (status w) (body w) in
              let redirect := Values_Get (URL_Query r) "redirect" in
              let redirect :=
                if String.eqb redirect "" then "/" else redirect in
              (s', http_Redirect w r redirect StatusFound)
          end
    end.

(** [func (a AuthServer) signupPageHandler(w, r)] *)
Definition signupPageHandler {S : Type} (fmtTime : Time -> string)
  (a : Authenticator S) (s : S) (w : ResponseWriter) (r : Request)
  : S * ResponseWriter :=
  if String.eqb (Method r) "GET" then
    (s, Write w (formPage "Sign Up" "signup" "login" "Log In"
                   (URL_RawQuery r)))
  else if negb (String.eqb (Method r) "POST") then
    (s, http_Error w ("invalid method: " ++ Method r) StatusBadRequest)
  else
    match ParseForm r with
    | Some err =>
        (s, http_Error w ("parse form: " ++ Error err) StatusBadRequest)
    | None =>
        let email := PostFormValue r "email" in
        let password := PostFormValue r "password" in
        match Register_method a s email password with
        | (s', Some err) =>
            (s', http_Error w ("create user: " ++ Error err) StatusBadRequest)
        | (s', None) => loginPageHandler fmtTime a s' w r
        end
    end.

End AuthServer.

(** [AuthServer{Authenticator: DBAuthenticator{db}}] and
    [AuthFilter{Validator: DBAuthenticator{db}, ...}] as [run] builds
    them. *)
Definition DBAuthenticator_Authenticator (lib : Libraries) (env : Ambient)
  : Authenticator DB :=
  mkAuthenticator (DBAuthenticator.Authenticate lib env)
                  (DBAuthenticator.Register lib).

Definition DBAuthenticator_Validator (now : Time) : Validator DB :=
  mkValidator (DBAuthenticator.Validate now).

(* ================================================================= *)
(** ** Concrete collaborators, for running the model *)

(** A stand-in for bcrypt that keeps the shape of the real one: hashing
    refuses a password of more than 72 bytes, and a hash verifies exactly
    the password it was made from. *)
Definition sampleLibraries : Libraries :=
  mkLibraries
    (fun email =>
       if existsb (Z.eqb 64) (bytes_of_string email) then None
       else Some (ExternalError "mail: missing '@' or angle-addr"))
    (fun password cost =>
       if (72 <? Z.of_nat (List.length password))%Z
       then inr (ExternalError "bcrypt: password length exceeds 72 bytes")
       else inl (cost :: password))
    (fun hash password =>
       match hash with
       | _ :: stored =>
           if bytes_eqb stored password then None
           else Some ErrMismatchedHashAndPassword
       | [] => Some (ExternalError "crypto/bcrypt: hashedSecret too short")
       end).

Definition no_failure : statement -> option error := fun _ => None.

Definition emptyTables : Tables := mkTables [] [].
Definition emptyDB : DB := mkDB (mkConn emptyTables no_failure) None None.

(** The database after [RegisterUser(ctx, db, "user1", "lol@localhost",
    "pw1")], the first step of TestAuth. *)
Definition oneUserDB : DB :=
  mkDB (fst (RegisterUser sampleLibraries (db_conn emptyDB)
               "user1" "lol@localhost" "pw1")) None None.

Definition sampleToken : Token :=
  [1; 2; 3; 4; 5; 6; 7; 8; 9; 10; 11; 12; 13; 14; 15; 255].

(** The two tokens of TestTokenReap, valid on [0ms, 1000ms] and on
    [0ms, 2000ms]. *)
Definition tokenOld : Token := repeat 1 16.
Definition tokenNew : Token := repeat 2 16.

Definition twoTokens : conn :=
  fst (GenerateToken (tokenNew, None)
         (fst (GenerateToken (tokenOld, None) (db_conn emptyDB) "test"
                 (Time_UnixMilli 0) (Time_UnixMilli 1000)))
         "test" (Time_UnixMilli 0) (Time_UnixMilli 2000)).

(** Two users, the second registered under the email address of the
    first as its identifier. *)
Definition twoUsers : conn :=
  fst (RegisterUser sampleLibraries
         (fst (RegisterUser sampleLibraries (db_conn emptyDB)
                 "first" "first@x.com" "pw1"))
         "first@x.com" "second@x.com" "pw2").

(** A stand-in for [expires.Format(time.RFC3339)]. *)
Definition sampleFormat (t : Time) : string := string_of_Z (UnixMilli t).

(** A body-less POST to /signup that carries [email] and [password]. *)
Definition signupPOST (email password : string) : Request :=
  mkRequest "POST" "/signup" "" [] [] None
            [("email", email); ("password", password)].

(** A password of 73 bytes, one more than bcrypt hashes. *)
Definition longPassword : string :=
  string_of_bytes (repeat 112 73).

(** A database whose driver fails the INSERT into USER. *)
Definition lockedDB : DB :=
  mkDB (mkConn emptyTables
          (fun q => match q with
                    | INSERT_INTO_USER =>
                        Some (ExternalError "database is locked")
                    | _ => None
                    end))
       None None.

(** A database that opens no transaction. *)
Definition noTxDB : DB :=
  mkDB (mkConn emptyTables no_failure)
       (Some (ExternalError "database is locked")) None.

(** A GET of /secured that carries [value] in the auth_token cookie. *)
Definition securedGET (value : string) : Request :=
  mkRequest "GET" "/secured" "" [] [("auth_token", value)] None [].

(** Twenty-eight base64 digits: the encoding of 21 bytes. *)
Definition overlongCookie : string := "AAAAAAAAAAAAAAAAAAAAAAAAAAAA".

Definition sampleAmbient : Ambient :=
  mkAmbient (Time_UnixMilli 1000) (Time_UnixMilli 1001) (sampleToken, None).

(* ================================================================= *)
(** ** Creating the tables and starting the server *)

(** The database file: each of the two tables, once created, with its
    rows. *)
Record Catalog : Type := mkCatalog {
  cat_USER : option (list UserRow);
  cat_TOKEN : option (list TokenRow)
}.

Definition Catalog_of (tb : Tables) : Catalog :=
  mkCatalog (Some (USER_table tb)) (Some (TOKEN_table tb)).

Definition Tables_of (c : Catalog) : option Tables :=
  match cat_USER c, cat_TOKEN c with
  | Some us, Some ts => Some (mkTables us ts)
  | _, _ => None
  end.

(** The two statements of [Initialize]. *)
Inductive ddl : Type :=
| CREATE_TABLE_USER
| CREATE_TABLE_TOKEN.

(** [CREATE TABLE IF NOT EXISTS]: a table that is there is left as it
    is, a missing one is created empty. *)
Definition create_if_not_exists (c : Catalog) (q : ddl) : Catalog :=
  match q with
  | CREATE_TABLE_USER =>
      match cat_USER c with
      | Some _ => c
      | None => mkCatalog (Some []) (cat_TOKEN c)
      end
  | CREATE_TABLE_TOKEN =>
      match cat_TOKEN c with
      | Some _ => c
      | None => mkCatalog (cat_USER c) (Some [])
      end
  end.

(** The [steps] of [Initialize], each a name and a statement. *)
Definition Initialize_steps : list (string * ddl) :=
  [("user", CREATE_TABLE_USER); ("token", CREATE_TABLE_TOKEN)].

(** [for _, step := range steps]: the first statement the driver fails
    ends the loop. *)
Fixpoint Initialize_range (ddl_failure : ddl -> option error) (c : Catalog)
  (steps : list (string * ddl)) : Catalog * option error :=
  match steps with
  | [] => (c, None)
  | (Name, Query) :: steps' =>
      match ddl_failure Query with
      | Some err => (c, Some (Errorf ("create tables: " ++ Name) err))
      | None =>
          Initialize_range ddl_failure (create_if_not_exists c Query) steps'
      end
  end.

(** [func Initialize(ctx, db) error] *)
Definition Initialize (ddl_failure : ddl -> option error) (c : Catalog)
  : Catalog * option error :=
  Initialize_range ddl_failure c Initialize_steps.

(** The flags of the command: [-clear], [-v], [-f]. *)
Record Flags : Type := mkFlags {
  flag_clear : bool;
  flag_v : bool;
  flag_f : string
}.

(** What [run] finds: the database file named by [-f], [None] when there
    is no such file, and the failures of the calls it makes, if any
    ([os.Remove] on a file that is there, [sql.Open], the statements, the
    transactions). *)
Record Machine : Type := mkMachine {
  dbfile : option Catalog;
  Remove_err : option error;
  Open_err : option error;
  ddl_failure : ddl -> option error;
  statement_failure : statement -> option error;
  begin_failure : option error;
  commit_failure : option error
}.

(** How [run] goes: it returns an error before it serves, or it reaches
    [http.ListenAndServe] with the handlers working on [db]. *)
Inductive started : Type :=
| Failed (err : error)
| Serving (db : DB).

(** [func run(ctx) error], up to [http.ListenAndServe].  The [initialize]
    it calls is [Initialize].  The file is opened by the first statement,
    which creates it when it is missing; a statement on a table that is
    not there fails. *)
Definition run (lib : Libraries) (flags : Flags) (m : Machine) : started :=
  let removed : option Catalog + error :=
    if flag_clear flags then
      match dbfile m with
      | None =>
          inr (Errorf ("-clear: remove " ++ flag_f flags)
                 (ExternalError ("remove " ++ flag_f flags
                                 ++ ": no such file or directory")))
      | Some _ =>
          match Remove_err m with
          | Some err => inr (Errorf ("-clear: remove " ++ flag_f flags) err)
          | None => inl None
          end
      end
    else inl (dbfile m) in
  match removed with
  | inr err => Failed err
  | inl file =>
      match Open_err m with
      | Some err => Failed (Errorf "connect to SQLite3 DB" err)
      | None =>
          let cat :=
            match file with
            | Some c => c
            | None => mkCatalog None None
            end in
          match Initialize (ddl_failure m) cat with
          | (_, Some err) => Failed (Errorf "initialize schema" err)
          | (cat', None) =>
              match Tables_of cat' with
              | None =>
                  Failed (Errorf "test user"
                            (Errorf "insert user"
                               (ExternalError "no such table: USER")))
              | Some tb =>
                  match RegisterUser lib (mkConn tb (statement_failure m))
                          "hunter" "hunter@hherman.com" "test123" with
                  | (_, Some err) => Failed (Errorf "test user" err)
                  | (db, None) =>
                      Serving (mkDB db (begin_failure m) (commit_failure m))
                  end
              end
          end
      end
  end.

(** The file a server that reached [Serving db] leaves behind. *)
Definition dbfile_of (db : DB) : option Catalog :=
  Some (Catalog_of (tables (db_conn db))).

(** The database [run] serves on when it finds no file and nothing
    fails. *)
Definition firstRunDB : DB :=
  mkDB (fst (RegisterUser sampleLibraries (db_conn emptyDB)
               "hunter" "hunter@hherman.com" "test123"))
       None None.

(* ================================================================= *)
(** ** Calls on the store, one after the other *)

(** The functions of the package that write to the store. *)
Inductive call : Type :=
| call_RegisterUser (id email password : string)
| call_GenerateToken (rnd : Token * option error) (uid : string)
                     (start end_ : Time)
| call_ReapTokens (olderThan : Time)
| call_Register (email password : string)
| call_Authenticate (env : Ambient) (email password : string).

(** The database after a call. *)
Definition after_call (lib : Libraries) (d : DB) (c : call) : DB :=
  match c with
  | call_RegisterUser id email password =>
      DBAuthenticator.with_conn d
        (fst (RegisterUser lib (db_conn d) id email password))
  | call_GenerateToken rnd uid start end_ =>
      DBAuthenticator.with_conn d
        (fst (GenerateToken rnd (db_conn d) uid start end_))
  | call_ReapTokens olderThan =>
      DBAuthenticator.with_conn d (fst (ReapTokens (db_conn d) olderThan))
  | call_Register email password =>
      fst (DBAuthenticator.Register lib d email password)
  | call_Authenticate env email password =>
      fst (DBAuthenticator.Authenticate lib env d email password)
  end.

(** The tables that calls satisfying [allowed] lead to from the empty
    database, whatever fails on the way. *)
Inductive reachable (lib : Libraries) (allowed : call -> Prop)
  : Tables -> Prop :=
| reachable_empty : reachable lib allowed emptyTables
| reachable_call (d : DB) (c : call) :
    reachable lib allowed (tables (db_conn d)) ->
    allowed c ->
    reachable lib allowed (tables (db_conn (after_call lib d c))).

Definition any_call (c : call) : Prop := True.

(** Every call but a bare [GenerateToken]: tokens come from
    [DBAuthenticator.Authenticate] only. *)
Definition through_login (c : call) : Prop :=
  match c with
  | call_GenerateToken _ _ _ _ => False
  | _ => True
  end.

(** The pages [AuthServer.Handler] serves, [/login] and [/signup]. *)
Inductive page : Type :=
| page_login
| page_signup.

(** The database after the server [run] sets up has answered one request
    to a page: [AuthServer] with [DBAuthenticator] behind it.  The handler
    of [/secured] reads the store and leaves it as it is. *)
Definition after_request (lib : Libraries) (fmtTime : Time -> string)
  (env : Ambient) (d : DB) (p : page) (w : ResponseWriter) (r : Request)
  : DB :=
  let a := DBAuthenticator_Authenticator lib env in
  match p with
  | page_login => fst (AuthServer.loginPageHandler fmtTime a d w r)
  | page_signup => fst (AuthServer.signupPageHandler fmtTime a d w r)
  end.

(** The tables the file holds once a server serves on [db]: those of
    [db], and those that one more request to a page, or one more call of
    the package on the file, leads to, whatever fails on the way. *)
Inductive served (lib : Libraries) (db : DB) : Tables -> Prop :=
| served_start : served lib db (tables (db_conn db))
| served_request (d : DB) (fmtTime : Time -> string) (env : Ambient)
    (p : page) (w : ResponseWriter) (r : Request) :
    served lib db (tables (db_conn d)) ->
    served lib db (tables (db_conn (after_request lib fmtTime env d p w r)))
| served_call (d : DB) (c : call) :
    served lib db (tables (db_conn d)) ->
    served lib db (tables (db_conn (after_call lib d c))).

(** The constraints of the schema: the primary key and the UNIQUE column
    of [USER], the primary key of [TOKEN], and the foreign key from
    [TOKEN.UID] to [USER.ID]. *)
Definition USER_constraints (tb : Tables) : Prop :=
  NoDup (map ID (USER_table tb)) /\ NoDup (map EMAIL (USER_table tb)).

Definition TOKEN_foreign_key (tb : Tables) : Prop :=
  forall r, In r (TOKEN_table tb) ->
            exists u, In u (USER_table tb) /\ ID u = UID r.

(** The bytes [url.QueryEscape] lets through or produces: letters, digits,
    [-_.~], [+] and [%]. *)
Definition query_safe (c : Z) : bool :=
  negb (shouldEscape c) || Z.eqb c 43 || Z.eqb c 37.

(* ================================================================= *)
(** ** Notions the statements use *)

(** The row [r] is named by [idOrEmail], as the WHERE clause of
    [Authenticate] has it. *)
Definition names (idOrEmail : string) (r : UserRow) : Prop :=
  ID r = idOrEmail \/ EMAIL r = idOrEmail.

(** The address every redirect of [AuthFilter.Handler] goes to. *)
Definition redirectURL {S : Type} (a : AuthFilter S) (r : Request) : string :=
  LoginURL a ++ "?redirect=" ++ QueryEscape (URL_String r).

(** The base64 digit [val>>k & 0x3F], and the 24 bits [Encode] makes of
    three bytes. *)
Definition digit (val k : Z) : Z := Z.land (Z.shiftr val k) 63.

Definition val3 (b0 b1 b2 : Z) : Z :=
  Z.lor (Z.lor (Z.shiftl b0 16) (Z.shiftl b1 8)) b2.

(** What holds at the head of each loop of [Decode] on a 16-byte [dst] and
    [len] bytes of text: whole groups of three bytes were written, each for
    at least four bytes read. *)
Definition decode_invariant (len : nat) (s : base64.dstate) : Prop :=
  List.length (base64.d_dst s) = 16%nat
  /\ (exists k, base64.d_n s = 3 * k)%nat
  /\ (4 * base64.d_n s + 3 * List.length (base64.d_rest s) <= 3 * len)%nat.

(** [Decode] came back with an error or with another count than 16: the
    results [UnmarshalText] turns into an error. *)
Definition rejected (res : outcome (list Z * nat * option error)) : Prop :=
  exists dst n err, res = Return (dst, n, err) /\ (err <> None \/ n <> 16%nat).

(** The primary key of [TOKEN]: no two rows hold the same token. *)
Definition TOKEN_primary_key (tb : Tables) : Prop :=
  NoDup (map TOKEN (TOKEN_table tb)).

(** The instants whose millisecond count fits an [int64], where
    [UnixMilli] is defined. *)
Definition in_UnixMilli_range (t : Time) : Prop :=
  - 2 ^ 63 <= t / Millisecond < 2 ^ 63.

(* ================================================================= *)
(** ** Lists, byte strings and times: auxiliary facts *)

Unset Implicit Arguments.
Local Open Scope Z_scope.

Lemma bytes_eqb_refl (a : list Z) : bytes_eqb a a = true.
Proof.
  induction a as [|x a IH]; simpl; [reflexivity|].
  now rewrite Z.eqb_refl, IH.
Qed.

Lemma bytes_eqb_eq (a b : list Z) : bytes_eqb a b = true <-> a = b.
Proof.
  split.
  - revert b; induction a as [|x a IH]; intros [|y b]; simpl;
      try discriminate; [reflexivity|].
    intros H. apply andb_true_iff in H as [Hx Hab].
    apply Z.eqb_eq in Hx. now rewrite Hx, (IH b Hab).
  - intros ->. apply bytes_eqb_refl.
Qed.

Lemma find_app {A : Type} (p : A -> bool) (l l' : list A) :
  find p (l ++ l') =
  match find p l with
  | Some x => Some x
  | None => find p l'
  end.
Proof.
  induction l as [|x l IH]; simpl; [reflexivity|].
  now destruct (p x).
Qed.

Lemma find_none_iff {A : Type} (p : A -> bool) (l : list A) :
  find p l = None <-> (forall x, In x l -> p x = false).
Proof.
  split.
  - intros H x Hx. exact (find_none p l H x Hx).
  - induction l as [|x l IH]; simpl; intros H; [reflexivity|].
    rewrite (H x (or_introl eq_refl)). apply IH. intros y Hy.
    apply H. now right.
Qed.

Lemma existsb_false_iff {A : Type} (p : A -> bool) (l : list A) :
  existsb p l = false <-> (forall x, In x l -> p x = false).
Proof.
  split.
  - intros H x Hx. destruct (p x) eqn:E; [|reflexivity].
    assert (existsb p l = true) by (apply existsb_exists; eauto).
    congruence.
  - intros H. destruct (existsb p l) eqn:E; [|reflexivity].
    apply existsb_exists in E as (x & Hx & Hp).
    rewrite (H x Hx) in Hp. discriminate.
Qed.

(** Deleting rows that a query does not select leaves its first row. *)
Lemma find_filter_kept {A : Type} (p q : A -> bool) (l : list A) :
  (forall x, In x l -> p x = true -> q x = true) ->
  find p (filter q l) = find p l.
Proof.
  induction l as [|x l IH]; simpl; intros H; [reflexivity|].
  destruct (p x) eqn:Hp.
  - rewrite (H x (or_introl eq_refl) Hp). simpl. now rewrite Hp.
  - destruct (q x); simpl; [rewrite Hp|]; apply IH; intros y Hy;
      apply H; now right.
Qed.

Lemma filter_all {A : Type} (q : A -> bool) (l : list A) :
  (forall x, In x l -> q x = true) -> filter q l = l.
Proof.
  induction l as [|x l IH]; simpl; intros H; [reflexivity|].
  rewrite (H x (or_introl eq_refl)). f_equal. apply IH.
  intros y Hy. apply H. now right.
Qed.

Lemma filter_idem {A : Type} (q : A -> bool) (l : list A) :
  filter q (filter q l) = filter q l.
Proof.
  apply filter_all. intros x Hx. now apply filter_In in Hx.
Qed.

Lemma NoDup_map_inj {A B : Type} (f : A -> B) (l : list A) (a b : A) :
  NoDup (map f l) -> In a l -> In b l -> f a = f b -> a = b.
Proof.
  induction l as [|x l IH]; simpl; intros Hnd Ha Hb Hf; [contradiction|].
  inversion Hnd as [|y l' Hnotin Hnd']; subst.
  destruct Ha as [-> | Ha], Hb as [-> | Hb]; auto.
  - exfalso. apply Hnotin. rewrite Hf. now apply in_map.
  - exfalso. apply Hnotin. rewrite <- Hf. now apply in_map.
Qed.

Lemma NoDup_map_filter {A B : Type} (f : A -> B) (q : A -> bool)
  (l : list A) : NoDup (map f l) -> NoDup (map f (filter q l)).
Proof.
  induction l as [|x l IH]; simpl; intros H; [constructor|].
  inversion H as [|y l' Hnotin Hnd]; subst.
  destruct (q x); simpl; [constructor|]; auto.
  intros Hin. apply Hnotin. apply in_map_iff in Hin as (z & Hz & Hin).
  apply filter_In in Hin as [Hin _]. rewrite <- Hz. now apply in_map.
Qed.

Lemma int64_id (x : Z) : - 2 ^ 63 <= x < 2 ^ 63 -> int64 x = x.
Proof.
  intros H. unfold int64. rewrite Z.mod_small; lia.
Qed.

(** Inside its range [UnixMilli] is monotone: it only rounds down. *)
Lemma UnixMilli_monotone (a b : Time) :
  in_UnixMilli_range a -> in_UnixMilli_range b -> a <= b ->
  UnixMilli a <= UnixMilli b.
Proof.
  unfold in_UnixMilli_range, UnixMilli. intros Ha Hb Hab.
  rewrite !int64_id by assumption.
  apply Z.div_le_mono; [reflexivity | assumption].
Qed.

Lemma UnixMilli_Time_UnixMilli (ms : Z) :
  - 2 ^ 63 <= ms < 2 ^ 63 -> UnixMilli (Time_UnixMilli ms) = ms.
Proof.
  intros H. unfold UnixMilli, Time_UnixMilli.
  rewrite Z.div_mul by discriminate. now apply int64_id.
Qed.

Lemma with_tables_same (db : conn) : with_tables db (tables db) = db.
Proof. now destruct db. Qed.

Lemma errors_Is_refl (e : error) : errors_Is e e = true.
Proof.
  assert (H : error_eqb e e = true).
  { induction e; simpl; rewrite ?Z.eqb_refl, ?String.eqb_refl; auto. }
  destruct e; simpl in *; rewrite ?H; reflexivity.
Qed.

(* ================================================================= *)
(** ** The credential store *)

Section Credentials.

Variable lib : Libraries.

Lemma names_bool (idOrEmail : string) (r : UserRow) :
  String.eqb (ID r) idOrEmail || String.eqb (EMAIL r) idOrEmail = true
  <-> names idOrEmail r.
Proof.
  unfold names. rewrite orb_true_iff, !String.eqb_eq. tauto.
Qed.

(** The rows the indexes lead to are rows of the table, and every row
    the identifier names is among them. *)
Lemma USER_by_index_In (idOrEmail : string) (tb : Tables) (r : UserRow) :
  In r (USER_by_index idOrEmail tb)
  <-> In r (USER_table tb) /\ names idOrEmail r.
Proof.
  unfold USER_by_index, names.
  rewrite in_app_iff, !filter_In, !String.eqb_eq. tauto.
Qed.

(** A query that selects one row only finds it, wherever it stands. *)
Lemma find_unique {A : Type} (p : A -> bool) (l : list A) (x : A) :
  In x l -> p x = true ->
  (forall y, In y l -> p y = true -> y = x) ->
  find p l = Some x.
Proof.
  intros Hin Hp Huniq. destruct (find p l) as [y|] eqn:E.
  - apply find_some in E as [Hy Hpy]. now rewrite (Huniq y Hy Hpy).
  - apply find_none with (x := x) in E; [congruence | assumption].
Qed.

(** The user added last is the one the query finds when the identifier
    names none of the older ones. *)
Lemma find_new_user (idOrEmail : string) (tb : Tables)
  (old : list UserRow) (new : UserRow) :
  USER_table tb = (old ++ [new])%list ->
  (forall r, In r old -> ~ names idOrEmail r) ->
  names idOrEmail new ->
  find (fun r => String.eqb (ID r) idOrEmail
                 || String.eqb (EMAIL r) idOrEmail)
       (USER_by_index idOrEmail tb)
  = Some new.
Proof.
  intros Hus Hold Hnew. apply find_unique.
  - apply USER_by_index_In. rewrite Hus. split; [|exact Hnew].
    apply in_or_app. right. now left.
  - now apply names_bool.
  - intros y Hy _. apply USER_by_index_In in Hy as [Hy Hn].
    rewrite Hus in Hy. apply in_app_or in Hy as [Hy | [<- | []]];
      [|reflexivity].
    now apply Hold in Hn.
Qed.




(** A successful [RegisterUser] appends exactly the row it was asked
    for. *)
Lemma RegisterUser_ok (db db' : conn) (id email password : string) :
  RegisterUser lib db id email password = (db', None) ->
  exists hash,
    tables db' =
    mkTables (USER_table (tables db) ++ [mkUserRow id email hash false])
             (TOKEN_table (tables db))
    /\ existsb (fun r => String.eqb (ID r) id) (USER_table (tables db))
       = false
    /\ existsb (fun r => String.eqb (EMAIL r) email) (USER_table (tables db))
       = false.
Proof.
  unfold RegisterUser.
  destruct (mail_ParseAddress lib email); [discriminate|].
  destruct (bcrypt_GenerateFromPassword _ _ _) as [hash|]; [|discriminate].
  destruct (failure db INSERT_INTO_USER); [discriminate|].
  destruct (existsb (fun r => String.eqb (EMAIL r) email) _) eqn:E2;
    [discriminate|].
  destruct (existsb (fun r => String.eqb (ID r) id) _) eqn:E1;
    [discriminate|].
  intros H. inversion H; subst. exists hash. simpl. auto.
Qed.

(** C9. A user created by [DBAuthenticator.Register], the registration
    path of the HTTP server, gets its email address as its identifier: the
    new row is the only change and has [ID = EMAIL = email].  So when all
    users were registered this way, every row has ID = EMAIL, and the
    identifiers are pairwise distinct exactly when the email addresses
    are. *)
Theorem Register_id_is_email
  (d d' : DB) (email password : string) :
  DBAuthenticator.Register lib d email password = (d', None) ->
  (exists hash,
     USER_table (tables (db_conn d')) =
     (USER_table (tables (db_conn d))
      ++ [mkUserRow email email hash false])%list)
  /\ ((forall r, In r (USER_table (tables (db_conn d))) -> ID r = EMAIL r) ->
      (forall r, In r (USER_table (tables (db_conn d'))) -> ID r = EMAIL r)
      /\ (NoDup (map ID (USER_table (tables (db_conn d'))))
          <-> NoDup (map EMAIL (USER_table (tables (db_conn d')))))).
Proof.
  unfold DBAuthenticator.Register.
  destruct (RegisterUser lib (db_conn d) email email password)
    as [c [err|]] eqn:E; [discriminate|].
  intros H. inversion H; subst; clear H. simpl.
  apply RegisterUser_ok in E as (hash & Htb & _). rewrite Htb. simpl.
  split; [now exists hash|].
  intros Hall.
  assert (Hall' : forall r,
             In r (USER_table (tables (db_conn d))
                   ++ [mkUserRow email email hash false])%list ->
             ID r = EMAIL r).
  { intros r Hr. apply in_app_or in Hr as [Hr | [<- | []]]; auto. }
  split; [exact Hall'|].
  rewrite (map_ext_in ID EMAIL _ Hall'). tauto.
Qed.

End Credentials.

Lemma Register_id_is_email_witness :
  exists d',
    DBAuthenticator.Register sampleLibraries emptyDB "a@x.com" "pw" = (d', None)
    /\ map ID (USER_table (tables (db_conn d'))) = ["a@x.com"]
    /\ map EMAIL (USER_table (tables (db_conn d'))) = ["a@x.com"].
Proof.
  eexists. split; [reflexivity|].
  destruct (Register_id_is_email sampleLibraries emptyDB _ "a@x.com" "pw"
              eq_refl) as [(hash & Hrow) _].
  rewrite Hrow. split; reflexivity.
Defined.


(* ================================================================= *)
(** ** The token store *)

(** A [GenerateToken] that succeeds met no row with the same token and
    appended one row, holding the window in milliseconds. *)
Lemma GenerateToken_ok (rnd : Token * option error) (db db' : conn)
  (uid : string) (start end_ : Time) (t : Token) :
  GenerateToken rnd db uid start end_ = (db', (t, None)) ->
  fst rnd = t
  /\ failure db' = failure db
  /\ USER_table (tables db') = USER_table (tables db)
  /\ TOKEN_table (tables db') =
     (TOKEN_table (tables db)
      ++ [mkTokenRow uid t (UnixMilli start) (UnixMilli end_)])%list
  /\ (forall r, In r (TOKEN_table (tables db)) -> bytes_eqb (TOKEN r) t = false).
Proof.
  unfold GenerateToken. destruct rnd as [t0 [e|]]; [discriminate|].
  destruct (failure db INSERT_INTO_TOKEN); [discriminate|].
  destruct (existsb _ _) eqn:E; [discriminate|].
  intros H. inversion H; subst; clear H. simpl.
  repeat split. now apply existsb_false_iff.
Qed.

(** A [GenerateToken] that fails leaves the connection as it was. *)
Lemma GenerateToken_err (rnd : Token * option error) (db db' : conn)
  (uid : string) (start end_ : Time) (t : Token) (err : error) :
  GenerateToken rnd db uid start end_ = (db', (t, Some err)) -> db' = db.
Proof.
  unfold GenerateToken. destruct rnd as [t0 [e|]].
  - intros H. now inversion H.
  - destruct (failure db INSERT_INTO_TOKEN); [intros H; now inversion H|].
    destruct (existsb _ _); intros H; inversion H; reflexivity.
Qed.

(** The row [Lookup] selects right after the token was generated. *)
Lemma Lookup_generated (rnd : Token * option error) (db db' : conn)
  (uid : string) (start end_ now : Time) (t : Token) :
  GenerateToken rnd db uid start end_ = (db', (t, None)) ->
  failure db SELECT_UID_FROM_TOKEN = None ->
  Lookup db' t now =
  if ((UnixMilli start <=? UnixMilli now)
      && (UnixMilli end_ >=? UnixMilli now))%Z
  then (uid, None) else ("", Some errInvalidToken).
Proof.
  intros Hgen Hf.
  apply GenerateToken_ok in Hgen as (_ & Hfail & _ & Htok & Hfresh).
  unfold Lookup, QueryRow_Scan. rewrite Hfail, Hf, Htok, find_app.
  replace (find _ (TOKEN_table (tables db))) with (@None TokenRow).
  - simpl. rewrite bytes_eqb_refl. simpl.
    now destruct (_ && _).
  - symmetry. apply find_none_iff. intros r Hr.
    now rewrite (Hfresh r Hr).
Qed.

(** Inside the window, counted in instants whose millisecond counts fit
    an [int64], the user comes back: rounding down keeps the order. *)
Lemma Lookup_generated_instants (rnd : Token * option error)
  (db db' : conn) (uid : string) (start end_ now : Time) (t : Token) :
  GenerateToken rnd db uid start end_ = (db', (t, None)) ->
  failure db SELECT_UID_FROM_TOKEN = None ->
  in_UnixMilli_range start -> in_UnixMilli_range now ->
  in_UnixMilli_range end_ ->
  start <= now <= end_ ->
  Lookup db' t now = (uid, None).
Proof.
  intros Hgen Hf Hs Hn He [H1 H2].
  rewrite (Lookup_generated rnd db db' uid start end_ now t Hgen Hf).
  pose proof (UnixMilli_monotone start now Hs Hn H1).
  pose proof (UnixMilli_monotone now end_ Hn He H2).
  replace (_ && _) with true; [reflexivity|].
  symmetry. apply andb_true_iff. split; [apply Z.leb_le | apply Z.geb_le];
    lia.
Qed.

(** C3. A token generated for [uid] with the window [start, end] is
    looked up, times compared as whole milliseconds: at every instant
    [now] with start <= now <= end, [Lookup] returns [uid]; at every
    instant before [start] or after [end] it fails with
    [errInvalidToken]. *)
Theorem Lookup_window (rnd : Token * option error) (db db' : conn)
  (uid : string) (start end_ : Time) (t : Token) :
  GenerateToken rnd db uid start end_ = (db', (t, None)) ->
  failure db SELECT_UID_FROM_TOKEN = None ->
  forall now : Time,
    (UnixMilli start <= UnixMilli now <= UnixMilli end_ ->
     Lookup db' t now = (uid, None))
    /\ (UnixMilli now < UnixMilli start \/ UnixMilli end_ < UnixMilli now ->
        Lookup db' t now = ("", Some errInvalidToken)).
Proof.
  intros Hgen Hf now.
  rewrite (Lookup_generated rnd db db' uid start end_ now t Hgen Hf).
  split; intros H.
  - replace (_ && _) with true; [reflexivity|].
    symmetry. apply andb_true_iff. split; [apply Z.leb_le | apply Z.geb_le];
      lia.
  - replace (_ && _) with false; [reflexivity|].
    symmetry. apply andb_false_iff.
    destruct H as [H | H]; [left | right]; lia.
Qed.

Lemma Lookup_window_witness :
  let db' := fst (GenerateToken (sampleToken, None) (db_conn emptyDB) "test"
                    (Time_UnixMilli 0) (Time_UnixMilli 1000)) in
  Lookup db' sampleToken (Time_UnixMilli 500) = ("test", None)
  /\ Lookup db' sampleToken (Time_UnixMilli 5000)
     = ("", Some errInvalidToken).
Proof.
  split.
  - apply (Lookup_window (sampleToken, None) (db_conn emptyDB) _ "test"
             (Time_UnixMilli 0) (Time_UnixMilli 1000) sampleToken
             eq_refl eq_refl (Time_UnixMilli 500)).
    vm_compute. split; discriminate.
  - apply (Lookup_window (sampleToken, None) (db_conn emptyDB) _ "test"
             (Time_UnixMilli 0) (Time_UnixMilli 1000) sampleToken
             eq_refl eq_refl (Time_UnixMilli 5000)).
    right. vm_compute. reflexivity.
Defined.

(** What [ReapTokens] does when the statement goes through. *)
Lemma ReapTokens_ok (db : conn) (olderThan : Time) :
  failure db DELETE_FROM_TOKEN = None ->
  ReapTokens db olderThan =
  (with_tables db
     (mkTables (USER_table (tables db))
        (filter (fun r => negb (END_TIME r <? UnixMilli olderThan)%Z)
                (TOKEN_table (tables db)))),
   None).
Proof.
  intros Hf. unfold ReapTokens. now rewrite Hf.
Qed.

(** The primary key of [TOKEN] holds in the empty database and is kept by
    the two statements that write the table. *)
Lemma TOKEN_primary_key_empty : TOKEN_primary_key emptyTables.
Proof. constructor. Qed.

Lemma GenerateToken_primary_key (rnd : Token * option error)
  (db db' : conn) (uid : string) (start end_ : Time) (t : Token)
  (err : option error) :
  GenerateToken rnd db uid start end_ = (db', (t, err)) ->
  TOKEN_primary_key (tables db) -> TOKEN_primary_key (tables db').
Proof.
  destruct err as [e|].
  - intros H. now rewrite (GenerateToken_err _ _ _ _ _ _ _ _ H).
  - intros H. apply GenerateToken_ok in H as (_ & _ & _ & Htok & Hfresh).
    unfold TOKEN_primary_key. rewrite Htok, map_app. simpl. intros Hnd.
    apply NoDup_app; [assumption | repeat constructor; simpl; tauto|].
    intros x Hx [<- | []].
    apply in_map_iff in Hx as (r & Hr & Hin).
    specialize (Hfresh r Hin). rewrite Hr, bytes_eqb_refl in Hfresh.
    discriminate.
Qed.

Lemma ReapTokens_primary_key (db : conn) (olderThan : Time) :
  TOKEN_primary_key (tables db) ->
  TOKEN_primary_key (tables (fst (ReapTokens db olderThan))).
Proof.
  unfold ReapTokens. destruct (failure db DELETE_FROM_TOKEN); simpl; auto.
  apply NoDup_map_filter.
Qed.

(** C6. When the DELETE goes through, [ReapTokens] succeeds and removes
    the rows whose end time is before the cutoff (in whole milliseconds)
    and no other row; a token whose row has END_TIME >= cutoff is looked up
    with the same result as before, at every instant; reaping twice is
    reaping once; and when no row is before the cutoff the database is left
    as it was. *)
Theorem ReapTokens_spec (db : conn) (olderThan : Time) :
  failure db DELETE_FROM_TOKEN = None ->
  TOKEN_primary_key (tables db) ->
  let db' := fst (ReapTokens db olderThan) in
  snd (ReapTokens db olderThan) = None
  /\ (forall r, In r (TOKEN_table (tables db')) <->
                In r (TOKEN_table (tables db))
                /\ ~ END_TIME r < UnixMilli olderThan)
  /\ USER_table (tables db') = USER_table (tables db)
  /\ (forall r now, In r (TOKEN_table (tables db)) ->
        END_TIME r >= UnixMilli olderThan ->
        Lookup db' (TOKEN r) now = Lookup db (TOKEN r) now)
  /\ ReapTokens db' olderThan = (db', None)
  /\ ((forall r, In r (TOKEN_table (tables db)) ->
         ~ END_TIME r < UnixMilli olderThan) ->
      ReapTokens db olderThan = (db, None)).
Proof.
  intros Hf Hpk db'. subst db'. rewrite (ReapTokens_ok db olderThan Hf).
  simpl.
  split; [reflexivity|].
  split; [|split; [reflexivity|]; split; [|split]].
  - intros r. rewrite filter_In, negb_true_iff, Z.ltb_ge.
    split; intros [Hin Hend]; (split; [assumption | lia]).
  - intros r now Hin Hend. unfold Lookup, QueryRow_Scan. simpl.
    rewrite find_filter_kept; [reflexivity|].
    intros r' Hin' Hp.
    apply andb_true_iff in Hp as [Hp _]. apply andb_true_iff in Hp as [Hp _].
    apply bytes_eqb_eq in Hp.
    rewrite (NoDup_map_inj TOKEN _ r' r Hpk Hin' Hin Hp).
    apply negb_true_iff, Z.ltb_ge. lia.
  - unfold ReapTokens. simpl. rewrite Hf. unfold with_tables. simpl.
    now rewrite filter_idem.
  - intros Hnone. rewrite filter_all.
    + destruct db as [[us tk] fl]. reflexivity.
    + intros r Hr. apply negb_true_iff, Z.ltb_ge.
      specialize (Hnone r Hr). lia.
Qed.

Lemma ReapTokens_spec_witness :
  TOKEN_primary_key (tables twoTokens)
  /\ snd (ReapTokens twoTokens (Time_UnixMilli 1500)) = None
  /\ Lookup (fst (ReapTokens twoTokens (Time_UnixMilli 1500))) tokenNew
            (Time_UnixMilli 500)
     = Lookup twoTokens tokenNew (Time_UnixMilli 500).
Proof.
  assert (Hpk : TOKEN_primary_key (tables twoTokens)).
  { repeat constructor; simpl; intuition discriminate. }
  split; [exact Hpk|].
  destruct (ReapTokens_spec twoTokens (Time_UnixMilli 1500) eq_refl Hpk)
    as (Hok & _ & _ & Hkept & _).
  split; [exact Hok|].
  apply (Hkept (mkTokenRow "test" tokenNew 0 2000) (Time_UnixMilli 500)).
  - right. left. reflexivity.
  - vm_compute. discriminate.
Defined.

(** The scenario of TestTokenReap: after [ReapTokens] at 1500ms the new
    token is still valid at 500ms and the old one is gone. *)
Example TestTokenReap :
  let db' := fst (ReapTokens twoTokens (Time_UnixMilli 1500)) in
  Lookup twoTokens tokenOld (Time_UnixMilli 500) = ("test", None)
  /\ Lookup db' tokenNew (Time_UnixMilli 500) = ("test", None)
  /\ Lookup db' tokenOld (Time_UnixMilli 500) = ("", Some errInvalidToken).
Proof. vm_compute. repeat split. Qed.

(** The cutoff is taken in whole milliseconds, rounded down by
    [UnixMilli]: half a millisecond past 1000ms it is still 1000, and the
    row that ends at 1000ms stays. *)
Example ReapTokens_rounds_cutoff_down :
  TOKEN_table (tables (fst (ReapTokens twoTokens
                              (Time_UnixMilli 1000 + 500000))))
  = TOKEN_table (tables twoTokens).
Proof. reflexivity. Qed.

(* ================================================================= *)
(** ** The transaction of [DBAuthenticator.Authenticate] *)

Section Transaction.

Variable lib : Libraries.
Variable env : Ambient.



(** The steps a successful call went through, and the one row it
    committed. *)
Lemma Authenticate_success (d d' : DB) (email password : string)
  (t : Token) (expiration : Time) :
  DBAuthenticator.Authenticate lib env d email password
  = (d', (t, expiration, None)) ->
  Authenticate lib (db_conn d) email password = None
  /\ exists uid,
      LookupByEmail (db_conn d) email = (uid, None)
      /\ TOKEN_table (tables (db_conn d')) =
         (TOKEN_table (tables (db_conn d))
          ++ [mkTokenRow uid t
                (UnixMilli (Time_Add (now_second env) (- Second)))
                (UnixMilli expiration)])%list
      /\ USER_table (tables (db_conn d')) = USER_table (tables (db_conn d)).
Proof.
  unfold DBAuthenticator.Authenticate.
  destruct (BeginTx_err d); [discriminate|].
  destruct (Authenticate lib (db_conn d) email password); [discriminate|].
  destruct (LookupByEmail (db_conn d) email) as [uid [e|]]; [discriminate|].
  destruct (GenerateToken _ _ _ _ _) as [tx' [t' [e|]]] eqn:G;
    [discriminate|].
  destruct (Commit_err d); [discriminate|].
  intros H. inversion H; subst; clear H.
  apply GenerateToken_ok in G as (_ & _ & Hus & Htok & _).
  split; [reflexivity|]. exists uid. simpl. auto.
Qed.


End Transaction.


(** TestAuth *)
Example TestAuth :
  let db := db_conn oneUserDB in
  Authenticate sampleLibraries db "user1" "pw1" = None
  /\ Authenticate sampleLibraries db "lol@localhost" "pw1" = None
  /\ Authenticate sampleLibraries db "lol@localhost" "pw2"
     = Some errBadCredentials
  /\ Authenticate sampleLibraries db "user1" "pw2" = Some errBadCredentials
  /\ Authenticate sampleLibraries db "fake" "pw2" = Some errBadCredentials.
Proof. vm_compute. repeat split. Qed.

(** An identifier that is the [EMAIL] of one user and the [ID] of
    another is checked against the hash of the one it is the [ID] of. *)
Example Authenticate_ID_before_EMAIL :
  map ID (USER_table (tables twoUsers)) = ["first"; "first@x.com"]
  /\ map EMAIL (USER_table (tables twoUsers))
     = ["first@x.com"; "second@x.com"]
  /\ Authenticate sampleLibraries twoUsers "first@x.com" "pw2" = None
  /\ Authenticate sampleLibraries twoUsers "first@x.com" "pw1"
     = Some errBadCredentials.
Proof. vm_compute. repeat split. Qed.

(** Of an identifier and an email address that are both taken, the
    address is the one the refusal names. *)
Example RegisterUser_names_EMAIL :
  snd (RegisterUser sampleLibraries twoUsers "first" "second@x.com" "pw")
  = Some (Errorf "insert user" (constraint_failed "USER.EMAIL"))
  /\ snd (RegisterUser sampleLibraries twoUsers "first" "third@x.com" "pw")
     = Some (Errorf "insert user" (constraint_failed "USER.ID")).
Proof. vm_compute. split; reflexivity. Qed.

(** TestDuplicateUser *)
Example TestDuplicateUser :
  let db := db_conn oneUserDB in
  snd (RegisterUser sampleLibraries db "user1" "test@gmail.com" "pw1") <> None
  /\ snd (RegisterUser sampleLibraries db "user2" "lol@localhost" "pw1") <> None
  /\ snd (RegisterUser sampleLibraries db "user3" "looool@icloud.com" "pw1")
     = None.
Proof. vm_compute. repeat split; discriminate. Qed.

(** After TestAuth's registration, a login with the wrong password: an
    error, and the token table stays empty. *)
Example Authenticate_wrong_password :
  let '(d', (_, _, err)) :=
    DBAuthenticator.Authenticate sampleLibraries sampleAmbient oneUserDB
      "lol@localhost" "pw2" in
  err = Some (Errorf "authorization" errBadCredentials)
  /\ TOKEN_table (tables (db_conn d')) = [].
Proof. vm_compute. split; reflexivity. Qed.

(** ... and with the right one: the token is issued and stored. *)
Example Authenticate_right_password :
  let '(d', (t, _, err)) :=
    DBAuthenticator.Authenticate sampleLibraries sampleAmbient oneUserDB
      "lol@localhost" "pw1" in
  err = None /\ t = sampleToken
  /\ map TOKEN (TOKEN_table (tables (db_conn d'))) = [sampleToken].
Proof. vm_compute. repeat split. Qed.

(* ================================================================= *)
(** ** The HTTP handlers *)

Lemma status_http_Error (w : ResponseWriter) (msg : string) (code : Z) :
  status w = None -> status (http_Error w msg code) = Some code.
Proof.
  intros H. unfold http_Error, Write, WriteHeader. simpl. rewrite H. simpl.
  reflexivity.
Qed.

Lemma status_http_Redirect (w : ResponseWriter) (r : Request)
  (url : string) (code : Z) :
  status w = None -> status (http_Redirect w r url code) = Some code.
Proof.
  intros H. unfold http_Redirect, WriteHeader. simpl. now rewrite H.
Qed.

Section Server.

Variable S : Type.
Variable fmtTime : Time -> string.
Variable a : Authenticator S.

(** The status of a login POST, by the result of [Authenticate]. *)
Lemma loginPageHandler_POST (s : S) (w : ResponseWriter) (r : Request) :
  status w = None -> Method r = "POST" -> ParseForm r = None ->
  let err :=
    snd (snd (Authenticate_method a s (PostFormValue r "email")
                (PostFormValue r "password"))) in
  status (snd (AuthServer.loginPageHandler fmtTime a s w r)) =
  Some (if Is err errBadCredentials then StatusUnauthorized
        else match err with
             | Some _ => StatusInternalServerError
             | None => StatusFound
             end).
Proof.
  intros Hw Hm Hf. unfold AuthServer.loginPageHandler.
  rewrite Hm, Hf. simpl.
  destruct (Authenticate_method a s _ _) as [s' [[t expires] err]]. simpl.
  destruct (Is err errBadCredentials); cbn [snd].
  - now apply status_http_Error.
  - destruct err; cbn [snd].
    + now apply status_http_Error.
    + now apply status_http_Redirect.
Qed.

(** A GET is answered with the page and status 200. *)
Lemma status_Write (w : ResponseWriter) (b : string) :
  status w = None -> status (Write w b) = Some StatusOK.
Proof.
  intros H. unfold Write, WriteHeader. rewrite H. reflexivity.
Qed.

(** The login handler answers 500 on one return only: a POST whose form
    parsed and an [Authenticate] whose error is not [errBadCredentials]. *)
Lemma loginPageHandler_500 (s : S) (w : ResponseWriter) (r : Request) :
  status w = None ->
  status (snd (AuthServer.loginPageHandler fmtTime a s w r))
  = Some StatusInternalServerError ->
  Method r = "POST" /\ ParseForm r = None
  /\ exists s' t expires err,
       Authenticate_method a s (PostFormValue r "email")
         (PostFormValue r "password") = (s', (t, expires, Some err))
       /\ errors_Is err errBadCredentials = false.
Proof.
  intros Hw. unfold AuthServer.loginPageHandler.
  destruct (String.eqb (Method r) "GET") eqn:Hg.
  { cbn [snd]. rewrite (status_Write _ _ Hw). discriminate. }
  destruct (String.eqb (Method r) "POST") eqn:Hp; cbn [negb].
  2:{ cbn [snd]. rewrite (status_http_Error _ _ _ Hw). discriminate. }
  apply String.eqb_eq in Hp.
  destruct (ParseForm r) as [e|] eqn:Hf.
  { cbn [snd]. rewrite (status_http_Error _ _ _ Hw). discriminate. }
  destruct (Authenticate_method a s _ _) as [s' [[t expires] err]] eqn:E.
  destruct (Is err errBadCredentials) eqn:Hb.
  { cbn [snd]. rewrite (status_http_Error _ _ _ Hw). discriminate. }
  destruct err as [err|].
  - intros _. split; [exact Hp|]. split; [reflexivity|].
    exists s', t, expires, err. split; [reflexivity|exact Hb].
  - cbn [snd]. rewrite status_http_Redirect by exact Hw. discriminate.
Qed.

(** C7, as the code has it.  To a fresh response, on a POST whose form
    parses, the login handler answers a failure of [Authenticate] that is
    not [errBadCredentials] with 500 (and [errBadCredentials] with 401), and
    the signup handler answers every failure of [Register] with 400,
    whatever its cause.  Either handler answers 500 on one path only: the
    login handler on a POST whose form parsed, for a failure of
    [Authenticate] that is not [errBadCredentials]; the signup handler on a
    POST whose form parsed, after a [Register] that succeeded, as the
    answer of the login handler it then runs on the state [Register]
    left. *)
Theorem POST_failure_status (s : S) (w : ResponseWriter) (r : Request) :
  status w = None ->
  let email := PostFormValue r "email" in
  let password := PostFormValue r "password" in
  (Method r = "POST" -> ParseForm r = None ->
   forall s' t expires err,
     Authenticate_method a s email password = (s', (t, expires, Some err)) ->
     status (snd (AuthServer.loginPageHandler fmtTime a s w r)) =
     Some (if errors_Is err errBadCredentials then StatusUnauthorized
           else StatusInternalServerError))
  /\ (Method r = "POST" -> ParseForm r = None ->
      forall s' err,
        Register_method a s email password = (s', Some err) ->
        status (snd (AuthServer.signupPageHandler fmtTime a s w r))
        = Some StatusBadRequest)
  /\ (status (snd (AuthServer.loginPageHandler fmtTime a s w r))
      = Some StatusInternalServerError ->
      Method r = "POST" /\ ParseForm r = None
      /\ exists s' t expires err,
           Authenticate_method a s email password
           = (s', (t, expires, Some err))
           /\ errors_Is err errBadCredentials = false)
  /\ (status (snd (AuthServer.signupPageHandler fmtTime a s w r))
      = Some StatusInternalServerError ->
      Method r = "POST" /\ ParseForm r = None
      /\ exists s' s'' t expires err,
           Register_method a s email password = (s', None)
           /\ AuthServer.signupPageHandler fmtTime a s w r
              = AuthServer.loginPageHandler fmtTime a s' w r
           /\ Authenticate_method a s' email password
              = (s'', (t, expires, Some err))
           /\ errors_Is err errBadCredentials = false).
Proof.
  intros Hw email password.
  split; [|split; [|split]].
  - intros Hm Hf s' t expires err E.
    rewrite (loginPageHandler_POST s w r Hw Hm Hf).
    fold email password. rewrite E. simpl.
    now destruct (errors_Is err errBadCredentials).
  - intros Hm Hf s' err E. unfold AuthServer.signupPageHandler.
    rewrite Hm, Hf. simpl. fold email password. rewrite E. cbn [snd].
    now apply status_http_Error.
  - intros H. exact (loginPageHandler_500 s w r Hw H).
  - unfold AuthServer.signupPageHandler.
    destruct (String.eqb (Method r) "GET") eqn:Hg.
    { cbn [snd]. rewrite (status_Write _ _ Hw). discriminate. }
    destruct (String.eqb (Method r) "POST") eqn:Hp; cbn [negb].
    2:{ cbn [snd]. rewrite (status_http_Error _ _ _ Hw). discriminate. }
    apply String.eqb_eq in Hp.
    destruct (ParseForm r) as [e|] eqn:Hf.
    { cbn [snd]. rewrite (status_http_Error _ _ _ Hw). discriminate. }
    fold email password.
    destruct (Register_method a s email password) as [s' [err|]] eqn:E.
    { cbn [snd]. rewrite (status_http_Error _ _ _ Hw). discriminate. }
    intros H. split; [exact Hp|]. split; [reflexivity|].
    destruct (loginPageHandler_500 s' w r Hw H)
      as (_ & _ & s'' & t & expires & err & EA & Hb).
    exists s', s'', t, expires, err.
    split; [reflexivity|]. split; [reflexivity|]. split; [exact EA|exact Hb].
Qed.

End Server.

(** C7 fails on the signup path: a password bcrypt refuses to hash, and a
    store that fails the INSERT, both come back as 400, not 500. *)
Lemma signup_internal_failure_is_400 :
  let a := DBAuthenticator_Authenticator sampleLibraries sampleAmbient in
  let r := signupPOST "a@x.com" longPassword in
  let r' := signupPOST "a@x.com" "pw" in
  snd (DBAuthenticator.Register sampleLibraries emptyDB "a@x.com" longPassword)
  = Some (Errorf "hash pw"
            (ExternalError "bcrypt: password length exceeds 72 bytes"))
  /\ status (snd (AuthServer.signupPageHandler sampleFormat a emptyDB
                    emptyResponse r))
     = Some StatusBadRequest
  /\ snd (DBAuthenticator.Register sampleLibraries lockedDB "a@x.com" "pw")
     = Some (Errorf "insert user" (ExternalError "database is locked"))
  /\ status (snd (AuthServer.signupPageHandler sampleFormat a lockedDB
                    emptyResponse r'))
     = Some StatusBadRequest
  /\ StatusBadRequest <> StatusInternalServerError.
Proof. vm_compute. repeat split. discriminate. Qed.

(** On a store that fails the INSERT the signup POST is answered with 400;
    on one that opens no transaction [Register] succeeds, the login that
    follows fails, and the 500 of the signup is the login handler's. *)
Lemma POST_failure_status_witness :
  let a := DBAuthenticator_Authenticator sampleLibraries sampleAmbient in
  let r := signupPOST "a@x.com" "pw" in
  status (snd (AuthServer.signupPageHandler sampleFormat a lockedDB
                 emptyResponse r))
  = Some StatusBadRequest
  /\ status (snd (AuthServer.signupPageHandler sampleFormat a noTxDB
                    emptyResponse r))
     = Some StatusInternalServerError
  /\ exists s' s'' t expires err,
       Register_method a noTxDB "a@x.com" "pw" = (s', None)
       /\ AuthServer.signupPageHandler sampleFormat a noTxDB emptyResponse r
          = AuthServer.loginPageHandler sampleFormat a s' emptyResponse r
       /\ Authenticate_method a s' "a@x.com" "pw"
          = (s'', (t, expires, Some err))
       /\ errors_Is err errBadCredentials = false.
Proof.
  intros a r. split; [|split].
  - apply (proj1 (proj2 (POST_failure_status DB sampleFormat a lockedDB
                           emptyResponse r eq_refl))
             eq_refl eq_refl lockedDB
             (Errorf "insert user" (ExternalError "database is locked"))).
    reflexivity.
  - reflexivity.
  - apply (proj2 (proj2 (proj2 (POST_failure_status DB sampleFormat a noTxDB
                                  emptyResponse r eq_refl)))).
    reflexivity.
Defined.

Section Filter.

Variable S : Type.
Variable a : AuthFilter S.
Variable h : Token -> ResponseWriter -> Request -> ResponseWriter.

(** X16. On each of the three returns of [AuthFilter.Handler] that follow
    an error, a missing cookie, a cookie that does not parse and a token
    the validator refuses, the response is the same redirect to the login
    URL with the escaped URL of the request, whatever line is logged;
    without an error the wrapped handler answers. *)
Lemma Handler_returns (s : S) (w : ResponseWriter) (r : Request) :
  (Cookie r "auth_token" = inr ErrNoCookie ->
   exists l, AuthFilter.Handler a h s w r =
     Return (mkServed (http_Redirect w r (redirectURL a r) StatusFound) l))
  /\ (forall v t err,
        Cookie r "auth_token" = inl v ->
        UnmarshalText zeroToken (bytes_of_string v) = Return (t, Some err) ->
        exists l, AuthFilter.Handler a h s w r =
          Return (mkServed (http_Redirect w r (redirectURL a r) StatusFound) l))
  /\ (forall v t err,
        Cookie r "auth_token" = inl v ->
        UnmarshalText zeroToken (bytes_of_string v) = Return (t, None) ->
        Validate (filter_Validator a) s t = Some err ->
        exists l, AuthFilter.Handler a h s w r =
          Return (mkServed (http_Redirect w r (redirectURL a r) StatusFound) l))
  /\ (forall v t,
        Cookie r "auth_token" = inl v ->
        UnmarshalText zeroToken (bytes_of_string v) = Return (t, None) ->
        Validate (filter_Validator a) s t = None ->
        AuthFilter.Handler a h s w r = Return (mkServed (h t w r) [])).
Proof.
  unfold AuthFilter.Handler, redirectURL. repeat split.
  - intros ->. eauto.
  - intros v t err -> ->. eauto.
  - intros v t err -> -> ->. eauto.
  - intros v t -> -> ->. reflexivity.
Qed.

(** C8 fails on a cookie that holds more base64 digits than a token has:
    decoding it into the 16-byte token panics, so the handler neither
    redirects nor calls the wrapped handler. *)
Theorem Handler_overlong_cookie_panics (s : S) (w : ResponseWriter) :
  AuthFilter.Handler a h s w (securedGET overlongCookie)
  = Panic base64.index_panic.
Proof. reflexivity. Qed.

End Filter.

(* ================================================================= *)
(** ** The token text encoding *)

Lemma range_forallb (P : Z -> bool) (n : nat) :
  forallb P (map Z.of_nat (seq 0 n)) = true ->
  forall z, 0 <= z < Z.of_nat n -> P z = true.
Proof.
  intros H z Hz. rewrite forallb_forall in H. apply H.
  apply in_map_iff. exists (Z.to_nat z). split; [lia|].
  apply in_seq. lia.
Qed.

(** Bits that do not overlap add up. *)
Lemma lor_add (a b k : Z) :
  0 <= k -> a mod 2 ^ k = 0 -> 0 <= b < 2 ^ k -> Z.lor a b = a + b.
Proof.
  intros Hk Ha Hb.
  assert (Hland : Z.land a b = 0).
  { apply Z.bits_inj'. intros n Hn. rewrite Z.land_spec, Z.bits_0.
    destruct (Z.lt_ge_cases n k) as [Hlt | Hge].
    - rewrite (Z.div_mod a (2 ^ k)) by lia. rewrite Ha, Z.add_0_r.
      rewrite Z.mul_comm, Z.mul_pow2_bits_low by lia. reflexivity.
    - rewrite <- (Z.mod_small b (2 ^ k)) by lia.
      rewrite Z.mod_pow2_bits_high by lia. apply andb_false_r. }
  rewrite <- Z.lxor_lor by assumption. symmetry.
  now apply Z.add_nocarry_lxor.
Qed.

Lemma lor_shiftl_add (a b k : Z) :
  0 <= k -> 0 <= b < 2 ^ k -> Z.lor (Z.shiftl a k) b = a * 2 ^ k + b.
Proof.
  intros Hk Hb. rewrite Z.shiftl_mul_pow2 by assumption.
  apply (lor_add _ _ k); try assumption.
  apply Z.mod_mul. lia.
Qed.

Section Digits.
Import base64.

Lemma digit_eq (val k : Z) : 0 <= k -> digit val k = (val / 2 ^ k) mod 64.
Proof.
  intros Hk. unfold digit. rewrite Z.shiftr_div_pow2 by assumption.
  change 63 with (Z.ones 6). now rewrite Z.land_ones.
Qed.

Lemma digit_range (val k : Z) : 0 <= k -> 0 <= digit val k < 64.
Proof.
  intros Hk. rewrite digit_eq by assumption. apply Z.mod_pos_bound. lia.
Qed.

Lemma val3_eq (b0 b1 b2 : Z) :
  is_byte b0 -> is_byte b1 -> is_byte b2 ->
  val3 b0 b1 b2 = b0 * 65536 + b1 * 256 + b2.
Proof.
  unfold is_byte, val3. intros H0 H1 H2.
  rewrite (lor_shiftl_add b0 (Z.shiftl b1 8) 16);
    [|lia | rewrite Z.shiftl_mul_pow2 by lia; lia].
  rewrite Z.shiftl_mul_pow2 by lia.
  rewrite (lor_add _ b2 8); [lia | lia | | lia].
  change (2 ^ 16) with (256 * 2 ^ 8).
  rewrite Z.mul_assoc, <- Z.mul_add_distr_r. apply Z.mod_mul. lia.
Qed.

Lemma decodeMap_encode (d : Z) : 0 <= d < 64 -> decodeMap (encode d) = d.
Proof.
  intros H. apply Z.eqb_eq.
  apply (range_forallb (fun d => decodeMap (encode d) =? d) 64);
    [vm_compute; reflexivity | assumption].
Qed.

Lemma lor_digits (a b : Z) :
  0 <= a < 64 -> 0 <= b < 64 -> 0 <= Z.lor a b < 64.
Proof.
  intros Ha Hb.
  assert (H : (0 <=? Z.lor a b) && (Z.lor a b <? 64) = true).
  { revert b Hb. apply (range_forallb _ 64).
    revert a Ha.
    apply (range_forallb
             (fun a => forallb (fun b => (0 <=? Z.lor a b) && (Z.lor a b <? 64))
                         (map Z.of_nat (seq 0 64))) 64).
    vm_compute. reflexivity. }
  apply andb_true_iff in H as [H1 H2]. lia.
Qed.

Lemma assemble64_digits (d1 d2 d3 d4 d5 d6 d7 d8 : Z) :
  0 <= d1 < 64 -> 0 <= d2 < 64 -> 0 <= d3 < 64 -> 0 <= d4 < 64 ->
  0 <= d5 < 64 -> 0 <= d6 < 64 -> 0 <= d7 < 64 -> 0 <= d8 < 64 ->
  assemble64 d1 d2 d3 d4 d5 d6 d7 d8 =
  Some (d1 * 2 ^ 58 + (d2 * 2 ^ 52 + (d3 * 2 ^ 46 + (d4 * 2 ^ 40
        + (d5 * 2 ^ 34 + (d6 * 2 ^ 28 + (d7 * 2 ^ 22 + d8 * 2 ^ 16))))))).
Proof.
  intros H1 H2 H3 H4 H5 H6 H7 H8. unfold assemble64.
  pose proof (lor_digits d7 d8 H7 H8) as L7.
  pose proof (lor_digits d6 _ H6 L7) as L6.
  pose proof (lor_digits d5 _ H5 L6) as L5.
  pose proof (lor_digits d4 _ H4 L5) as L4.
  pose proof (lor_digits d3 _ H3 L4) as L3.
  pose proof (lor_digits d2 _ H2 L3) as L2.
  pose proof (lor_digits d1 _ H1 L2) as L1.
  replace (Z.eqb _ 255) with false by (symmetry; apply Z.eqb_neq; lia).
  f_equal.
  rewrite (Z.shiftl_mul_pow2 d8 16) by lia.
  rewrite (lor_shiftl_add d7 _ 22) by lia.
  rewrite (lor_shiftl_add d6 _ 28) by lia.
  rewrite (lor_shiftl_add d5 _ 34) by lia.
  rewrite (lor_shiftl_add d4 _ 40) by lia.
  rewrite (lor_shiftl_add d3 _ 46) by lia.
  rewrite (lor_shiftl_add d2 _ 52) by lia.
  rewrite (lor_shiftl_add d1 _ 58) by lia.
  reflexivity.
Qed.

Lemma assemble32_digits (d1 d2 d3 d4 : Z) :
  0 <= d1 < 64 -> 0 <= d2 < 64 -> 0 <= d3 < 64 -> 0 <= d4 < 64 ->
  assemble32 d1 d2 d3 d4 =
  Some (d1 * 2 ^ 26 + (d2 * 2 ^ 20 + (d3 * 2 ^ 14 + d4 * 2 ^ 8))).
Proof.
  intros H1 H2 H3 H4. unfold assemble32.
  pose proof (lor_digits d3 d4 H3 H4) as L3.
  pose proof (lor_digits d2 _ H2 L3) as L2.
  pose proof (lor_digits d1 _ H1 L2) as L1.
  replace (Z.eqb _ 255) with false by (symmetry; apply Z.eqb_neq; lia).
  f_equal.
  rewrite (Z.shiftl_mul_pow2 d4 8) by lia.
  rewrite (lor_shiftl_add d3 _ 14) by lia.
  rewrite (lor_shiftl_add d2 _ 20) by lia.
  rewrite (lor_shiftl_add d1 _ 26) by lia.
  reflexivity.
Qed.

End Digits.

Section Groups.
Import base64.

Lemma Encode_cons3 (b0 b1 b2 : Z) (l : list Z) :
  Encode (b0 :: b1 :: b2 :: l) =
  encode (digit (val3 b0 b1 b2) 18) :: encode (digit (val3 b0 b1 b2) 12)
  :: encode (digit (val3 b0 b1 b2) 6) :: encode (digit (val3 b0 b1 b2) 0)
  :: Encode l.
Proof. reflexivity. Qed.

Lemma Encode_1 (b0 : Z) :
  Encode [b0] =
  [encode (digit (Z.shiftl b0 16) 18); encode (digit (Z.shiftl b0 16) 12);
   padChar; padChar].
Proof. reflexivity. Qed.

Lemma byte_of_shiftr (v k : Z) :
  0 <= k -> byte_of (Z.shiftr v k) = (v / 2 ^ k) mod 256.
Proof.
  intros Hk. unfold byte_of. now rewrite Z.shiftr_div_pow2.
Qed.

Lemma digits_sum (v : Z) :
  0 <= v < 16777216 ->
  digit v 18 * 262144 + digit v 12 * 4096 + digit v 6 * 64 + digit v 0 = v.
Proof.
  intros H. rewrite !digit_eq by lia.
  change (2 ^ 18) with 262144. change (2 ^ 12) with 4096.
  change (2 ^ 6) with 64. change (2 ^ 0) with 1.
  Z.div_mod_to_equations. lia.
Qed.

(** Six bytes, encoded, pass the 8-digit fast path and come back, followed
    by the two zero bytes [PutUint64] stores along. *)
Lemma fast64_ok (b0 b1 b2 b3 b4 b5 : Z) :
  is_byte b0 -> is_byte b1 -> is_byte b2 ->
  is_byte b3 -> is_byte b4 -> is_byte b5 ->
  exists dn,
    assemble64
      (decodeMap (encode (digit (val3 b0 b1 b2) 18)))
      (decodeMap (encode (digit (val3 b0 b1 b2) 12)))
      (decodeMap (encode (digit (val3 b0 b1 b2) 6)))
      (decodeMap (encode (digit (val3 b0 b1 b2) 0)))
      (decodeMap (encode (digit (val3 b3 b4 b5) 18)))
      (decodeMap (encode (digit (val3 b3 b4 b5) 12)))
      (decodeMap (encode (digit (val3 b3 b4 b5) 6)))
      (decodeMap (encode (digit (val3 b3 b4 b5) 0))) = Some dn
    /\ be64 dn = [b0; b1; b2; b3; b4; b5; 0; 0].
Proof.
  intros H0 H1 H2 H3 H4 H5.
  rewrite !decodeMap_encode by (apply digit_range; lia).
  rewrite assemble64_digits by (apply digit_range; lia).
  eexists. split; [reflexivity|].
  pose proof (val3_eq b0 b1 b2 H0 H1 H2) as Ev.
  pose proof (val3_eq b3 b4 b5 H3 H4 H5) as Ew.
  unfold is_byte in *.
  pose proof (digits_sum (val3 b0 b1 b2) ltac:(lia)) as Sv.
  pose proof (digits_sum (val3 b3 b4 b5) ltac:(lia)) as Sw.
  pose proof (digit_range (val3 b0 b1 b2) 18 ltac:(lia)).
  pose proof (digit_range (val3 b0 b1 b2) 12 ltac:(lia)).
  pose proof (digit_range (val3 b0 b1 b2) 6 ltac:(lia)).
  pose proof (digit_range (val3 b0 b1 b2) 0 ltac:(lia)).
  pose proof (digit_range (val3 b3 b4 b5) 18 ltac:(lia)).
  pose proof (digit_range (val3 b3 b4 b5) 12 ltac:(lia)).
  pose proof (digit_range (val3 b3 b4 b5) 6 ltac:(lia)).
  pose proof (digit_range (val3 b3 b4 b5) 0 ltac:(lia)).
  unfold be64. cbn [map]. rewrite !byte_of_shiftr by lia.
  change (2 ^ 58) with 288230376151711744.
  change (2 ^ 52) with 4503599627370496.
  change (2 ^ 46) with 70368744177664.
  change (2 ^ 40) with 1099511627776.
  change (2 ^ 34) with 17179869184.
  change (2 ^ 28) with 268435456.
  change (2 ^ 22) with 4194304.
  change (2 ^ 16) with 65536.
  change (2 ^ 56) with 72057594037927936.
  change (2 ^ 48) with 281474976710656.
  change (2 ^ 32) with 4294967296.
  change (2 ^ 24) with 16777216.
  change (2 ^ 8) with 256.
  change (2 ^ 0) with 1.
  repeat f_equal; Z.div_mod_to_equations; lia.
Qed.

(** Three bytes, encoded, pass the 4-digit fast path and come back,
    followed by the zero byte [PutUint32] stores along. *)
Lemma fast32_ok (b0 b1 b2 : Z) :
  is_byte b0 -> is_byte b1 -> is_byte b2 ->
  exists dn,
    assemble32
      (decodeMap (encode (digit (val3 b0 b1 b2) 18)))
      (decodeMap (encode (digit (val3 b0 b1 b2) 12)))
      (decodeMap (encode (digit (val3 b0 b1 b2) 6)))
      (decodeMap (encode (digit (val3 b0 b1 b2) 0))) = Some dn
    /\ be32 dn = [b0; b1; b2; 0].
Proof.
  intros H0 H1 H2.
  rewrite !decodeMap_encode by (apply digit_range; lia).
  rewrite assemble32_digits by (apply digit_range; lia).
  eexists. split; [reflexivity|].
  pose proof (val3_eq b0 b1 b2 H0 H1 H2) as Ev.
  unfold is_byte in *.
  pose proof (digits_sum (val3 b0 b1 b2) ltac:(lia)) as Sv.
  pose proof (digit_range (val3 b0 b1 b2) 18 ltac:(lia)).
  pose proof (digit_range (val3 b0 b1 b2) 12 ltac:(lia)).
  pose proof (digit_range (val3 b0 b1 b2) 6 ltac:(lia)).
  pose proof (digit_range (val3 b0 b1 b2) 0 ltac:(lia)).
  unfold be32. cbn [map]. rewrite !byte_of_shiftr by lia.
  change (2 ^ 26) with 67108864.
  change (2 ^ 20) with 1048576.
  change (2 ^ 14) with 16384.
  change (2 ^ 24) with 16777216.
  change (2 ^ 16) with 65536.
  change (2 ^ 8) with 256.
  change (2 ^ 0) with 1.
  repeat f_equal; Z.div_mod_to_equations; lia.
Qed.

(** A digit of the alphabet is taken into [dbuf]. *)
Lemma readQuantum_digit (d : Z) (rest dbuf : list Z) (si j : nat) :
  0 <= d < 64 -> (j < 4)%nat ->
  readQuantum (encode d :: rest) si j dbuf =
  match store dbuf j d with
  | Some dbuf' => readQuantum rest (S si) (S j) dbuf'
  | None => QReturn rest (S si) None
  end.
Proof.
  intros Hd Hj. cbn [readQuantum].
  replace (4 <=? j)%nat with false by (symmetry; apply Nat.leb_gt; lia).
  rewrite decodeMap_encode by assumption.
  replace (d =? 255) with false by (symmetry; apply Z.eqb_neq; lia).
  reflexivity.
Qed.

(** The last byte of a token, encoded as two digits and two pads, comes
    back from [decodeQuantum]. *)
Lemma tail_byte (b : Z) :
  is_byte b ->
  byte_of
    (Z.shiftr
       (Z.lor (Z.lor (Z.lor (Z.shiftl (digit (Z.shiftl b 16) 18) 18)
                            (Z.shiftl (digit (Z.shiftl b 16) 12) 12))
                     (Z.shiftl 0 6)) 0) 16) = b.
Proof.
  unfold is_byte. intros Hb.
  pose proof (digit_range (Z.shiftl b 16) 18 ltac:(lia)) as R0.
  pose proof (digit_range (Z.shiftl b 16) 12 ltac:(lia)) as R1.
  change (Z.shiftl 0 6) with 0. rewrite !Z.lor_0_r.
  rewrite (Z.shiftl_mul_pow2 _ 12) by lia.
  rewrite (lor_shiftl_add _ _ 18) by lia.
  rewrite byte_of_shiftr by lia.
  rewrite !digit_eq by lia. rewrite Z.shiftl_mul_pow2 by lia.
  change (2 ^ 18) with 262144. change (2 ^ 12) with 4096.
  change (2 ^ 16) with 65536.
  Z.div_mod_to_equations. lia.
Qed.

Lemma decodeQuantum_tail (b : Z) (dst : list Z) (n si : nat) :
  is_byte b ->
  decodeQuantum (mkD dst n (Encode [b]) si) =
  match store dst n b with
  | Some dst' => Return (mkD dst' (n + 1) [] (si + 4), None)
  | None => Panic index_panic
  end.
Proof.
  intros Hb. rewrite Encode_1. unfold decodeQuantum. cbn [d_rest d_si].
  rewrite readQuantum_digit by (try apply digit_range; lia).
  cbn [store].
  rewrite readQuantum_digit by (try apply digit_range; lia).
  cbn [store]. 
  change (readQuantum [padChar; padChar] (S (S si)) 2
            [digit (Z.shiftl b 16) 18; digit (Z.shiftl b 16) 12; 0; 0])
    with (QBreak [] (S (S (S (S si)))) 2
            [digit (Z.shiftl b 16) 18; digit (Z.shiftl b 16) 12; 0; 0] None).
  cbn [nth fold_left fst snd d_dst d_n Nat.sub].
  rewrite tail_byte by assumption.
  replace (si + 4)%nat with (S (S (S (S si)))) by lia.
  replace (n + (2 - 1))%nat with (n + 1)%nat by reflexivity.
  reflexivity.
Qed.

(** One turn of each of the three loops of [Decode]. *)
Lemma loop64_fast (fuel : nat) (dst : list Z) (n si : nat)
  (c1 c2 c3 c4 c5 c6 c7 c8 : Z) (rest : list Z) (dn : Z) (bs : list Z) :
  (8 <= List.length dst - n)%nat ->
  assemble64 (decodeMap c1) (decodeMap c2) (decodeMap c3) (decodeMap c4)
             (decodeMap c5) (decodeMap c6) (decodeMap c7) (decodeMap c8)
  = Some dn ->
  be64 dn = bs ->
  loop64 (S fuel)
    (mkD dst n (c1 :: c2 :: c3 :: c4 :: c5 :: c6 :: c7 :: c8 :: rest) si) =
  match stores dst n bs with
  | Some dst' => loop64 fuel (mkD dst' (n + 6) rest (si + 8))
  | None => Panic index_panic
  end.
Proof.
  intros Hroom Ha Hb. cbn [loop64 d_rest d_dst d_n d_si].
  replace (8 <=? _)%nat with true by (symmetry; now apply Nat.leb_le).
  now rewrite Ha, Hb.
Qed.

Lemma loop64_exit (fuel : nat) (s : dstate) :
  (List.length (d_dst s) - d_n s < 8)%nat -> loop64 fuel s = loop32 fuel s.
Proof.
  intros Hroom. apply Nat.leb_gt in Hroom.
  destruct fuel; cbn [loop64]; rewrite Hroom;
    destruct (d_rest s) as [|? [|? [|? [|? [|? [|? [|? [|? ?]]]]]]]];
    reflexivity.
Qed.

Lemma loop32_fast (fuel : nat) (dst : list Z) (n si : nat)
  (c1 c2 c3 c4 : Z) (rest : list Z) (dn : Z) (bs : list Z) :
  (4 <= List.length dst - n)%nat ->
  assemble32 (decodeMap c1) (decodeMap c2) (decodeMap c3) (decodeMap c4)
  = Some dn ->
  be32 dn = bs ->
  loop32 (S fuel) (mkD dst n (c1 :: c2 :: c3 :: c4 :: rest) si) =
  match stores dst n bs with
  | Some dst' => loop32 fuel (mkD dst' (n + 3) rest (si + 4))
  | None => Panic index_panic
  end.
Proof.
  intros Hroom Ha Hb. cbn [loop32 d_rest d_dst d_n d_si].
  replace (4 <=? _)%nat with true by (symmetry; now apply Nat.leb_le).
  now rewrite Ha, Hb.
Qed.

Lemma loop32_exit (fuel : nat) (s : dstate) :
  (List.length (d_dst s) - d_n s < 4)%nat -> loop32 fuel s = loopTail fuel s.
Proof.
  intros Hroom. apply Nat.leb_gt in Hroom.
  destruct fuel; cbn [loop32]; rewrite Hroom;
    destruct (d_rest s) as [|? [|? [|? [|? ?]]]]; reflexivity.
Qed.

Lemma loopTail_step (fuel : nat) (s : dstate) :
  d_rest s <> [] ->
  loopTail (S fuel) s =
  match decodeQuantum s with
  | Return (s', Some e) => Return (d_dst s', d_n s', Some e)
  | Return (s', None) => loopTail fuel s'
  | Panic m => Panic m
  | OutOfFuel => OutOfFuel
  end.
Proof.
  intros H. cbn [loopTail]. destruct (d_rest s); [contradiction|reflexivity].
Qed.

Lemma loopTail_done (fuel : nat) (dst : list Z) (n si : nat) :
  loopTail fuel (mkD dst n [] si) = Return (dst, n, None).
Proof. destruct fuel; reflexivity. Qed.

End Groups.


(** Decoding the encoding of sixteen bytes into a 16-byte array gives the
    sixteen bytes back. *)
Lemma Decode_Encode_16 (dst t : list Z) :
  List.length dst = 16%nat -> is_token t ->
  base64.Decode dst (base64.Encode t) = Return (t, 16%nat, None).
Proof.
  intros Hdst [Hlen Hbytes].
  do 17 (destruct t as [|? t]; try discriminate Hlen). clear Hlen.
  do 17 (destruct dst as [|? dst]; try discriminate Hdst). clear Hdst.
  repeat match goal with
         | H : Forall _ (_ :: _) |- _ =>
             let Hb := fresh "Hb" in
             inversion H as [|? ? Hb ?]; subst; clear H
         end.
  rewrite !Encode_cons3.
  unfold base64.Decode. cbn [List.length].
  destruct (fast64_ok z z0 z1 z2 z3 z4) as (dn1 & A1 & B1); try assumption.
  rewrite loop64_fast with (dn := dn1) (bs := [z; z0; z1; z2; z3; z4; 0; 0]);
    [|cbn [List.length]; lia | exact A1 | exact B1].
  cbn [stores store Nat.add].
  destruct (fast64_ok z5 z6 z7 z8 z9 z10) as (dn2 & A2 & B2); try assumption.
  rewrite loop64_fast with (dn := dn2) (bs := [z5; z6; z7; z8; z9; z10; 0; 0]);
    [|cbn [List.length]; lia | exact A2 | exact B2].
  cbn [stores store Nat.add].
  rewrite loop64_exit by (cbn [List.length base64.d_dst base64.d_n]; lia).
  destruct (fast32_ok z11 z12 z13) as (dn3 & A3 & B3); try assumption.
  rewrite loop32_fast with (dn := dn3) (bs := [z11; z12; z13; 0]);
    [|cbn [List.length]; lia | exact A3 | exact B3].
  cbn [stores store Nat.add].
  rewrite loop32_exit by (cbn [List.length base64.d_dst base64.d_n]; lia).
  rewrite loopTail_step by (rewrite Encode_1; discriminate).
  rewrite decodeQuantum_tail by assumption.
  cbn [store Nat.add]. rewrite loopTail_done. reflexivity.
Qed.

Lemma bytes_of_string_of_bytes (l : list Z) :
  Forall is_byte l -> bytes_of_string (string_of_bytes l) = l.
Proof.
  intros H. unfold bytes_of_string, string_of_bytes.
  rewrite list_ascii_of_string_of_list_ascii, map_map.
  induction H as [|b l Hb Hl IH]; simpl; [reflexivity|].
  rewrite IH. f_equal. unfold is_byte in Hb.
  rewrite N_ascii_embedding by lia. lia.
Qed.

Lemma encode_is_byte (d : Z) : is_byte (base64.encode d).
Proof.
  unfold base64.encode.
  destruct (nth_in_or_default (Z.to_nat d)
              (bytes_of_string base64.encodeStd) 0) as [Hin | ->];
    [|unfold is_byte; lia].
  assert (H : forallb (fun b => (0 <=? b) && (b <? 256))
                (bytes_of_string base64.encodeStd) = true)
    by (vm_compute; reflexivity).
  rewrite forallb_forall in H. apply H in Hin.
  apply andb_true_iff in Hin as [H1 H2]. unfold is_byte. lia.
Qed.

Lemma Encode_is_bytes (src : list Z) : Forall is_byte (base64.Encode src).
Proof.
  assert (H : forall n src, (List.length src <= n)%nat ->
                            Forall is_byte (base64.Encode src)).
  { induction n as [|n IH]; intros [|b0 [|b1 [|b2 l]]] Hn; simpl in Hn;
      try lia; try (constructor; fail).
    - repeat constructor; try apply encode_is_byte; unfold is_byte;
        unfold base64.padChar; lia.
    - repeat constructor; try apply encode_is_byte; unfold is_byte;
        unfold base64.padChar; lia.
    - rewrite Encode_cons3.
      repeat (constructor; [apply encode_is_byte|]).
      apply IH. lia. }
  apply (H (List.length src)). lia.
Qed.

(** C5. The text encoding of a token round-trips: for every token of
    sixteen bytes, [MarshalText] succeeds with the bytes of [String], and
    [UnmarshalText] of that text, on any 16-byte receiver, succeeds and
    leaves the receiver holding the original sixteen bytes. *)
Theorem UnmarshalText_MarshalText (t receiver : Token) :
  is_token t -> List.length receiver = 16%nat ->
  MarshalText t = (bytes_of_string (Token_String t), None)
  /\ UnmarshalText receiver (fst (MarshalText t)) = Return (t, None).
Proof.
  intros Ht Hr. split; [reflexivity|].
  unfold MarshalText, Token_String, base64.EncodeToString, UnmarshalText.
  cbn [fst]. rewrite bytes_of_string_of_bytes by apply Encode_is_bytes.
  now rewrite (Decode_Encode_16 receiver t Hr Ht).
Qed.

Lemma UnmarshalText_MarshalText_witness :
  Token_String sampleToken = "AQIDBAUGBwgJCgsMDQ4P/w=="
  /\ UnmarshalText zeroToken (fst (MarshalText sampleToken))
     = Return (sampleToken, None).
Proof.
  split; [reflexivity|].
  apply (UnmarshalText_MarshalText sampleToken zeroToken).
  - split; [reflexivity|]. repeat constructor; unfold is_byte; lia.
  - reflexivity.
Defined.

(** C10. [UnmarshalText] can fail and still have written to its
    receiver: on the four digits AQID, valid base64 for the three bytes 1,
    2, 3, it returns an error, and the zero token it was called on is left
    starting with 1, 2, 3. *)
Theorem UnmarshalText_error_overwrites_receiver :
  exists (text : list Z) (t' : Token) (err : error),
    text = bytes_of_string "AQID"
    /\ (List.length text < 24)%nat
    /\ UnmarshalText zeroToken text = Return (t', Some err)
    /\ firstn 3 t' = [1; 2; 3]
    /\ t' <> zeroToken.
Proof.
  exists (bytes_of_string "AQID").
  exists [1; 2; 3; 0; 0; 0; 0; 0; 0; 0; 0; 0; 0; 0; 0; 0].
  exists (ErrorfV "token: expected 16 bytes, was 4").
  repeat split; try reflexivity.
  - vm_compute. lia.
  - discriminate.
Qed.

(** C4 fails on text longer than a token's encoding: twenty-eight base64
    digits, decoded into the sixteen bytes of any receiver, make
    [UnmarshalText] panic with an index out of range instead of returning
    an error. *)
Theorem UnmarshalText_overlong_panics (receiver : Token) :
  List.length receiver = 16%nat ->
  UnmarshalText receiver (bytes_of_string overlongCookie)
  = Panic base64.index_panic.
Proof.
  intros Hr.
  do 17 (destruct receiver as [|? receiver]; try discriminate Hr).
  reflexivity.
Qed.

Lemma UnmarshalText_overlong_panics_witness :
  List.length (bytes_of_string overlongCookie) = 28%nat
  /\ UnmarshalText zeroToken (bytes_of_string overlongCookie)
     = Panic base64.index_panic.
Proof.
  split; [reflexivity|].
  apply (UnmarshalText_overlong_panics zeroToken). reflexivity.
Defined.

(** The decoder skips CR and LF, so text of another length than 24 can
    decode to a token: the encoding of a token followed by a newline. *)
Example UnmarshalText_trailing_newline :
  let text := (bytes_of_string "AQIDBAUGBwgJCgsMDQ4P/w==" ++ [10])%list in
  List.length text = 25%nat
  /\ UnmarshalText zeroToken text = Return (sampleToken, None).
Proof. split; reflexivity. Qed.

(* ================================================================= *)
(** ** [Decode] always comes back *)

Section Termination.
Import base64.

Lemma skipNewlines_length (rest : list Z) (si : nat) :
  (List.length (fst (skipNewlines rest si)) <= List.length rest)%nat.
Proof.
  revert si. induction rest as [|c rest IH]; intros si; simpl; [lia|].
  destruct (isNewline c); simpl; [|lia].
  specialize (IH (S si)). lia.
Qed.

(** The digit loop never gives back more input than it got, and it takes
    at least one byte when there is one and a digit is still wanted. *)
Lemma readQuantum_length (rest : list Z) :
  forall (si j : nat) (dbuf : list Z),
    (List.length (qread_rest (readQuantum rest si j dbuf))
     <= List.length rest)%nat
    /\ ((j < 4)%nat -> rest <> [] ->
        (List.length (qread_rest (readQuantum rest si j dbuf))
         < List.length rest)%nat).
Proof.
  induction rest as [|c rest IH]; intros si j dbuf.
  - split; [|intros _ H; contradiction].
    cbn [readQuantum]. destruct (4 <=? j)%nat; [simpl; lia|].
    destruct j; simpl; lia.
  - assert (Hstep : (j < 4)%nat ->
              (List.length (qread_rest (readQuantum (c :: rest) si j dbuf))
               < List.length (c :: rest))%nat).
    { intros Hj. cbn [readQuantum].
      replace (4 <=? j)%nat with false by (symmetry; apply Nat.leb_gt; lia).
      cbn [List.length].
      destruct (negb (decodeMap c =? 255)).
      { destruct (store dbuf j (decodeMap c)); [|simpl; lia].
        destruct (IH (S si) (S j) l) as [H _]. lia. }
      destruct (isNewline c).
      { destruct (IH (S si) j dbuf) as [H _]. lia. }
      destruct (negb (c =? padChar)); [simpl; lia|].
      destruct j as [|[|[|j]]]; try (simpl; lia).
      - pose proof (skipNewlines_length rest (S si)) as H1.
        destruct (skipNewlines rest (S si)) as [rest1 si1]. simpl in H1.
        destruct rest1 as [|c2 rest2]; [simpl; lia|].
        destruct (negb (c2 =? padChar)); [simpl in *; lia|].
        pose proof (skipNewlines_length rest2 (S si1)) as H2.
        destruct (skipNewlines rest2 (S si1)) as [rest3 si3].
        simpl in *. lia.
      - pose proof (skipNewlines_length rest (S si)) as H1.
        destruct (skipNewlines rest (S si)) as [rest3 si3].
        simpl in *. lia. }
    split; [|intros Hj _; now apply Hstep].
    destruct (Nat.lt_ge_cases j 4) as [Hj | Hj]; [apply Hstep in Hj; lia|].
    cbn [readQuantum].
    replace (4 <=? j)%nat with true by (symmetry; apply Nat.leb_le; lia).
    simpl. lia.
Qed.

Lemma decodeQuantum_returns (s : dstate) : decodeQuantum s <> OutOfFuel.
Proof.
  unfold decodeQuantum. destruct (readQuantum _ _ _ _); [discriminate|].
  destruct (fold_left _ _ _); discriminate.
Qed.

Lemma decodeQuantum_shrinks (s s' : dstate) (err : option error) :
  d_rest s <> [] -> decodeQuantum s = Return (s', err) ->
  (List.length (d_rest s') < List.length (d_rest s))%nat.
Proof.
  intros Hne. unfold decodeQuantum.
  destruct (readQuantum_length (d_rest s) (d_si s) 0 [0; 0; 0; 0])
    as [_ Hlt].
  specialize (Hlt ltac:(lia) Hne).
  destruct (readQuantum _ _ _ _) as [rest si e | rest si dlen dbuf e].
  - intros H. inversion H; subst. exact Hlt.
  - destruct (fold_left _ _ _); [|discriminate].
    intros H. inversion H; subst. exact Hlt.
Qed.

Lemma loopTail_returns (fuel : nat) :
  forall s, (List.length (d_rest s) <= fuel)%nat ->
            loopTail fuel s <> OutOfFuel.
Proof.
  induction fuel as [|fuel IH]; intros s Hlen.
  - destruct s as [dst n [|c rest] si]; simpl in *; [discriminate | lia].
  - cbn [loopTail]. destruct (d_rest s) as [|c rest] eqn:E; [discriminate|].
    pose proof (decodeQuantum_returns s) as Hret.
    destruct (decodeQuantum s) as [[s' [e|]] | m |] eqn:Q;
      try discriminate; [|contradiction].
    apply IH. apply decodeQuantum_shrinks in Q; [|rewrite E; discriminate].
    rewrite E in *. simpl in *. lia.
Qed.

Lemma loop32_returns (fuel : nat) :
  forall s, (List.length (d_rest s) <= fuel)%nat ->
            loop32 fuel s <> OutOfFuel.
Proof.
  induction fuel as [|fuel IH]; intros s Hlen.
  - destruct s as [dst n [|c rest] si]; simpl in *; [discriminate | lia].
  - cbn [loop32].
    destruct (d_rest s) as [|c1 [|c2 [|c3 [|c4 rest]]]] eqn:E;
      try (apply loopTail_returns; rewrite E; exact Hlen).
    destruct (4 <=? _)%nat;
      [|apply loopTail_returns; rewrite E; exact Hlen].
    destruct (assemble32 _ _ _ _).
    + destruct (stores _ _ _); [|discriminate].
      apply IH. simpl in *. lia.
    + pose proof (decodeQuantum_returns s) as Hret.
      destruct (decodeQuantum s) as [[s' [e|]] | m |] eqn:Q;
        try discriminate; [|contradiction].
      apply IH. apply decodeQuantum_shrinks in Q; [|rewrite E; discriminate].
      rewrite E in *. simpl in *. lia.
Qed.

Lemma loop64_returns (fuel : nat) :
  forall s, (List.length (d_rest s) <= fuel)%nat ->
            loop64 fuel s <> OutOfFuel.
Proof.
  induction fuel as [|fuel IH]; intros s Hlen.
  - destruct s as [dst n [|c rest] si]; simpl in *; [discriminate | lia].
  - cbn [loop64].
    destruct (d_rest s)
      as [|c1 [|c2 [|c3 [|c4 [|c5 [|c6 [|c7 [|c8 rest]]]]]]]] eqn:E;
      try (apply loop32_returns; rewrite E; exact Hlen).
    destruct (8 <=? _)%nat;
      [|apply loop32_returns; rewrite E; exact Hlen].
    destruct (assemble64 _ _ _ _ _ _ _ _).
    + destruct (stores _ _ _); [|discriminate].
      apply IH. simpl in *. lia.
    + pose proof (decodeQuantum_returns s) as Hret.
      destruct (decodeQuantum s) as [[s' [e|]] | m |] eqn:Q;
        try discriminate; [|contradiction].
      apply IH. apply decodeQuantum_shrinks in Q; [|rewrite E; discriminate].
      rewrite E in *. simpl in *. lia.
Qed.

(** The loop bound of the model is never reached: [Decode] returns or
    panics. *)
Lemma Decode_total (dst src : list Z) : Decode dst src <> OutOfFuel.
Proof.
  unfold Decode. destruct src as [|c src]; [discriminate|].
  apply loop64_returns. simpl. lia.
Qed.

End Termination.

Lemma UnmarshalText_total (t : Token) (text : list Z) :
  UnmarshalText t text <> OutOfFuel.
Proof.
  unfold UnmarshalText. pose proof (Decode_total t text) as H.
  destruct (base64.Decode t text) as [[[t' n] [e|]] | m |];
    try discriminate; [|contradiction].
  destruct (negb _); discriminate.
Qed.

(* ================================================================= *)
(** ** Text shorter than a token's encoding is refused *)

Section ShortText.
Import base64.

Lemma store_length (dst : list Z) (i : nat) (v : Z) (dst' : list Z) :
  store dst i v = Some dst' -> List.length dst' = List.length dst.
Proof.
  revert i dst'. induction dst as [|x dst IH]; intros [|i] dst'; simpl;
    try discriminate.
  - intros H. inversion H. reflexivity.
  - destruct (store dst i v) as [tl|] eqn:E; [|discriminate].
    intros H. inversion H. simpl. f_equal. eapply IH. eassumption.
Qed.

Lemma store_in_range (dst : list Z) (i : nat) (v : Z) :
  (i < List.length dst)%nat -> exists dst', store dst i v = Some dst'.
Proof.
  revert i. induction dst as [|x dst IH]; intros [|i] Hi; simpl in *;
    try lia; eauto.
  destruct (IH i ltac:(lia)) as [tl ->]. eauto.
Qed.

Lemma store_out_of_range (dst : list Z) (i : nat) (v : Z) :
  store dst i v = None -> (List.length dst <= i)%nat.
Proof.
  intros H. destruct (Nat.lt_ge_cases i (List.length dst)) as [Hi|Hi];
    [|assumption].
  destruct (store_in_range dst i v Hi) as [dst' E]. congruence.
Qed.

Lemma stores_in_range (vs dst : list Z) (i : nat) :
  (i + List.length vs <= List.length dst)%nat ->
  exists dst', stores dst i vs = Some dst'
               /\ List.length dst' = List.length dst.
Proof.
  revert dst i. induction vs as [|v vs IH]; intros dst i Hi; simpl in *.
  - eauto.
  - destruct (store_in_range dst i v ltac:(lia)) as [dst1 E]. rewrite E.
    pose proof (store_length _ _ _ _ E) as L1.
    destruct (IH dst1 (S i) ltac:(lia)) as (dst' & E' & L'). rewrite E'.
    exists dst'. split; [reflexivity | lia].
Qed.

(** Leaving the digit loop costs four bytes of input, counting the digits
    already in [dbuf]; it is left with four digits, or with two or three
    and the padding, after which the input ends or an error is set. *)
Lemma readQuantum_break (rest : list Z) :
  forall (si j : nat) (dbuf rest' : list Z) (si' dlen : nat)
         (dbuf' : list Z) (err : option error),
    (j <= 4)%nat ->
    readQuantum rest si j dbuf = QBreak rest' si' dlen dbuf' err ->
    (List.length rest' + (4 - j) <= List.length rest)%nat
    /\ ((dlen = 4%nat /\ err = None)
        \/ ((dlen = 2%nat \/ dlen = 3%nat) /\ (err <> None \/ rest' = []))).
Proof.
  induction rest as [|c rest IH]; intros si j dbuf rest' si' dlen dbuf' err Hj.
  - cbn [readQuantum]. destruct (4 <=? j)%nat eqn:E.
    + intros H. inversion H; subst. apply Nat.leb_le in E.
      cbn [List.length]. split; [lia | left; auto].
    + destruct j; discriminate.
  - cbn [readQuantum]. destruct (4 <=? j)%nat eqn:E.
    { intros H. inversion H; subst. apply Nat.leb_le in E.
      cbn [List.length]. split; [lia | left; auto]. }
    apply Nat.leb_gt in E.
    destruct (negb (decodeMap c =? 255)).
    { destruct (store dbuf j (decodeMap c)); [|discriminate].
      intros H. apply IH in H; [|lia]. cbn [List.length].
      split; [lia | tauto]. }
    destruct (isNewline c).
    { intros H. apply IH in H; [|lia]. cbn [List.length].
      split; [lia | tauto]. }
    destruct (negb (c =? padChar)); [discriminate|].
    destruct j as [|[|[|j]]]; try discriminate.
    + pose proof (skipNewlines_length rest (S si)) as H1.
      destruct (skipNewlines rest (S si)) as [rest1 si1].
      cbn [fst] in H1.
      destruct rest1 as [|c2 rest2]; [discriminate|].
      destruct (negb (c2 =? padChar)); [discriminate|].
      pose proof (skipNewlines_length rest2 (S si1)) as H2.
      destruct (skipNewlines rest2 (S si1)) as [rest3 si3].
      cbn [fst List.length] in H1, H2.
      intros H. inversion H; subst. cbn [List.length]. split; [lia|].
      right. split; [lia|].
      destruct rest'; [auto | left; unfold posErr; discriminate].
    + pose proof (skipNewlines_length rest (S si)) as H1.
      destruct (skipNewlines rest (S si)) as [rest3 si3].
      cbn [fst] in H1.
      intros H. inversion H; subst. cbn [List.length]. split; [lia|].
      right. split; [lia|].
      destruct rest'; [auto | left; unfold posErr; discriminate].
Qed.

Lemma store_some_lt (dst : list Z) (i : nat) (v : Z) (dst' : list Z) :
  store dst i v = Some dst' -> (i < List.length dst)%nat.
Proof.
  revert i dst'. induction dst as [|x dst IH]; intros [|i] dst'; simpl;
    try discriminate; try lia.
  destruct (store dst i v) as [tl|] eqn:E; [|discriminate].
  intros _. apply IH in E. lia.
Qed.

(** What one [decodeQuantum] does to the state: nothing written; or three
    bytes for at least four read; or one or two bytes for at least four
    read, and then the input has ended or an error is returned.  It panics
    only when fewer than three bytes of [dst] are left. *)
Lemma decodeQuantum_spec (s : dstate) :
  match decodeQuantum s with
  | Return (s', err) =>
      List.length (d_dst s') = List.length (d_dst s)
      /\ (List.length (d_rest s') <= List.length (d_rest s))%nat
      /\ (d_n s' = d_n s
          \/ (d_n s' = d_n s + 3 /\ err = None
              /\ List.length (d_rest s') + 4 <= List.length (d_rest s))%nat
          \/ ((d_n s' = d_n s + 1 \/ d_n s' = d_n s + 2)%nat
              /\ (err <> None \/ d_rest s' = [])
              /\ (List.length (d_rest s') + 4 <= List.length (d_rest s))%nat))
  | Panic _ =>
      (List.length (d_dst s) < d_n s + 3)%nat
      /\ (4 <= List.length (d_rest s))%nat
  | OutOfFuel => False
  end.
Proof.
  unfold decodeQuantum.
  pose proof (readQuantum_length (d_rest s) (d_si s) 0 [0; 0; 0; 0])
    as [Hle _].
  destruct (readQuantum (d_rest s) (d_si s) 0 [0; 0; 0; 0])
    as [rest si e | rest si dlen dbuf e] eqn:Q.
  - cbn [qread_rest] in Hle. cbn [d_dst d_rest d_n]. auto.
  - apply readQuantum_break in Q as [Hlen Hd]; [|lia].
    cbn [Nat.sub] in Hlen.
    set (val := Z.lor _ _).
    destruct Hd as [[-> ->] | [[-> | ->] Hend]]; cbn [fold_left fst snd].
    + destruct (store (d_dst s) (d_n s + 2) _) as [d1|] eqn:E1;
        [|apply store_out_of_range in E1; lia].
      pose proof (store_length _ _ _ _ E1) as L1.
      apply store_some_lt in E1.
      destruct (store_in_range d1 (d_n s + 1) (byte_of (Z.shiftr val 8))
                  ltac:(lia)) as [d2 E2].
      rewrite E2. pose proof (store_length _ _ _ _ E2) as L2.
      destruct (store_in_range d2 (d_n s) (byte_of (Z.shiftr val 16))
                  ltac:(lia)) as [d3 E3].
      rewrite E3. pose proof (store_length _ _ _ _ E3) as L3.
      cbn [d_dst d_rest d_n Nat.sub].
      split; [lia|]. split; [lia|]. right. left.
      split; [lia|]. split; [reflexivity | lia].
    + destruct (store (d_dst s) (d_n s) _) as [d1|] eqn:E1;
        [|apply store_out_of_range in E1; lia].
      pose proof (store_length _ _ _ _ E1) as L1.
      cbn [d_dst d_rest d_n Nat.sub].
      split; [lia|]. split; [lia|]. right. right.
      split; [lia|]. split; [assumption | lia].
    + destruct (store (d_dst s) (d_n s + 1) _) as [d1|] eqn:E1;
        [|apply store_out_of_range in E1; lia].
      pose proof (store_length _ _ _ _ E1) as L1.
      apply store_some_lt in E1.
      destruct (store_in_range d1 (d_n s) (byte_of (Z.shiftr val 16))
                  ltac:(lia)) as [d2 E2].
      rewrite E2. pose proof (store_length _ _ _ _ E2) as L2.
      cbn [d_dst d_rest d_n Nat.sub].
      split; [lia|]. split; [lia|]. right. right.
      split; [lia|]. split; [assumption | lia].
Qed.

Lemma loopTail_empty (fuel : nat) (s : dstate) :
  d_rest s = [] -> loopTail fuel s = Return (d_dst s, d_n s, None).
Proof. intros H. destruct fuel; cbn [loopTail]; now rewrite H. Qed.

Lemma loop32_empty (fuel : nat) (s : dstate) :
  d_rest s = [] -> loop32 fuel s = Return (d_dst s, d_n s, None).
Proof.
  intros H. destruct fuel; cbn [loop32]; rewrite H;
    now apply loopTail_empty.
Qed.

Lemma loop64_empty (fuel : nat) (s : dstate) :
  d_rest s = [] -> loop64 fuel s = Return (d_dst s, d_n s, None).
Proof.
  intros H. destruct fuel; cbn [loop64]; rewrite H;
    now apply loop32_empty.
Qed.

Variable len : nat.
Hypothesis len_short : (len < 24)%nat.

Lemma invariant_empty_rejected (s : dstate) :
  decode_invariant len s ->
  rejected (Return (d_dst s, d_n s, None)).
Proof.
  intros (_ & (k & Hk) & _). exists (d_dst s), (d_n s), None.
  split; [reflexivity|]. right. lia.
Qed.

(** The step all three loops share: a [decodeQuantum], then the loop
    [k] again. *)
Lemma after_quantum
  (k : dstate -> outcome (list Z * nat * option error)) (s : dstate) :
  decode_invariant len s ->
  d_rest s <> [] ->
  (forall s', decode_invariant len s' ->
              (List.length (d_rest s') < List.length (d_rest s))%nat ->
              rejected (k s')) ->
  (forall s', d_rest s' = [] -> k s' = Return (d_dst s', d_n s', None)) ->
  rejected
    match decodeQuantum s with
    | Return (s', Some e) => Return (d_dst s', d_n s', Some e)
    | Return (s', None) => k s'
    | Panic m => Panic m
    | OutOfFuel => OutOfFuel
    end.
Proof.
  intros (Hdst & (q & Hq) & Hn) Hne Hk Hend.
  pose proof (decodeQuantum_spec s) as Hspec.
  destruct (decodeQuantum s) as [[s' [e|]] | m |] eqn:Q.
  - exists (d_dst s'), (d_n s'), (Some e).
    split; [reflexivity | left; discriminate].
  - pose proof (decodeQuantum_shrinks s s' None Hne Q) as Hlt.
    destruct Hspec as (Hd' & Hle & [Hsame | [(H3 & _ & Hr) | (H12 & Hrest & Hr)]]).
    + apply Hk; [|exact Hlt].
      split; [lia|]. split; [exists q; lia | lia].
    + apply Hk; [|exact Hlt].
      split; [lia|]. split; [exists (S q); lia | lia].
    + destruct Hrest as [Hrest | Hrest]; [congruence|].
      rewrite (Hend s' Hrest). exists (d_dst s'), (d_n s'), None.
      split; [reflexivity|]. right. lia.
  - destruct Hspec as [Hroom Hfour]. exfalso. lia.
  - contradiction.
Qed.

Lemma loopTail_short (fuel : nat) :
  forall s, decode_invariant len s ->
            (List.length (d_rest s) <= fuel)%nat ->
            rejected (loopTail fuel s).
Proof.
  induction fuel as [|fuel IH]; intros s Hinv Hlen.
  - rewrite loopTail_empty; [now apply invariant_empty_rejected|].
    destruct (d_rest s); [reflexivity | simpl in Hlen; lia].
  - destruct (d_rest s) as [|c rest] eqn:E.
    + rewrite loopTail_empty by assumption.
      now apply invariant_empty_rejected.
    + rewrite loopTail_step by (rewrite E; discriminate).
      apply (after_quantum (loopTail fuel)); try assumption.
      * rewrite E. discriminate.
      * intros s' Hinv' Hlt. apply IH; [assumption|].
        rewrite E in *. simpl in *. lia.
      * intros s'. apply loopTail_empty.
Qed.

Lemma loop32_short (fuel : nat) :
  forall s, decode_invariant len s ->
            (List.length (d_rest s) <= fuel)%nat ->
            rejected (loop32 fuel s).
Proof.
  induction fuel as [|fuel IH]; intros s Hinv Hlen.
  - rewrite loop32_empty; [now apply invariant_empty_rejected|].
    destruct (d_rest s); [reflexivity | simpl in Hlen; lia].
  - cbn [loop32].
    destruct (d_rest s) as [|c1 [|c2 [|c3 [|c4 rest]]]] eqn:E;
      try (apply loopTail_short; [assumption | rewrite E; exact Hlen]).
    destruct (4 <=? _)%nat eqn:Hroom;
      [|apply loopTail_short; [assumption | rewrite E; exact Hlen]].
    apply Nat.leb_le in Hroom.
    destruct (assemble32 _ _ _ _) as [dn|].
    + destruct (stores_in_range (be32 dn) (d_dst s) (d_n s))
        as (dst' & Est & Ldst); [simpl; lia|].
      rewrite Est. apply IH; [|simpl in *; lia].
      destruct Hinv as (Hdst & (q & Hq) & Hn). rewrite E in Hn.
      split; [simpl; lia|]. split; [exists (S q); simpl; lia|].
      simpl in *. lia.
    + apply (after_quantum (loop32 fuel)); try assumption.
      * rewrite E. discriminate.
      * intros s' Hinv' Hlt. apply IH; [assumption|].
        rewrite E in *. simpl in *. lia.
      * intros s'. apply loop32_empty.
Qed.

Lemma loop64_short (fuel : nat) :
  forall s, decode_invariant len s ->
            (List.length (d_rest s) <= fuel)%nat ->
            rejected (loop64 fuel s).
Proof.
  induction fuel as [|fuel IH]; intros s Hinv Hlen.
  - rewrite loop64_empty; [now apply invariant_empty_rejected|].
    destruct (d_rest s); [reflexivity | simpl in Hlen; lia].
  - cbn [loop64].
    destruct (d_rest s)
      as [|c1 [|c2 [|c3 [|c4 [|c5 [|c6 [|c7 [|c8 rest]]]]]]]] eqn:E;
      try (apply loop32_short; [assumption | rewrite E; exact Hlen]).
    destruct (8 <=? _)%nat eqn:Hroom;
      [|apply loop32_short; [assumption | rewrite E; exact Hlen]].
    apply Nat.leb_le in Hroom.
    destruct (assemble64 _ _ _ _ _ _ _ _) as [dn|].
    + destruct (stores_in_range (be64 dn) (d_dst s) (d_n s))
        as (dst' & Est & Ldst); [simpl; lia|].
      rewrite Est. apply IH; [|simpl in *; lia].
      destruct Hinv as (Hdst & (q & Hq) & Hn). rewrite E in Hn.
      split; [simpl; lia|]. split; [exists (S (S q)); simpl; lia|].
      simpl in *. lia.
    + apply (after_quantum (loop64 fuel)); try assumption.
      * rewrite E. discriminate.
      * intros s' Hinv' Hlt. apply IH; [assumption|].
        rewrite E in *. simpl in *. lia.
      * intros s'. apply loop64_empty.
Qed.

Lemma Decode_short (dst src : list Z) :
  List.length dst = 16%nat -> List.length src = len ->
  rejected (Decode dst src).
Proof.
  intros Hdst Hsrc. unfold Decode. destruct src as [|c src'].
  - exists dst, 0%nat, None. split; [reflexivity | right; lia].
  - apply loop64_short; [|simpl; lia].
    split; [exact Hdst|]. split; [exists 0%nat; reflexivity|].
    simpl in *. lia.
Qed.

End ShortText.

(** X27. Text of fewer than 24 bytes never decodes to a token and never
    makes the decoder panic: [UnmarshalText] returns an error, whatever
    the bytes are.  (This is the part of C4 the code does keep.) *)
Lemma UnmarshalText_short_text (receiver : Token) (text : list Z) :
  List.length receiver = 16%nat -> (List.length text < 24)%nat ->
  exists (t' : Token) (err : error),
    UnmarshalText receiver text = Return (t', Some err).
Proof.
  intros Hr Ht.
  destruct (Decode_short (List.length text) Ht receiver text Hr eq_refl)
    as (dst & n & err & E & Hbad).
  unfold UnmarshalText. rewrite E.
  destruct err as [e|]; [eauto|].
  destruct Hbad as [Hbad | Hbad]; [congruence|].
  apply Nat.eqb_neq in Hbad. rewrite Hbad. simpl. eauto.
Qed.

(* ================================================================= *)
(** ** More on the credential store *)

Section MoreCredentials.

Variable lib : Libraries.

(** What a successful [RegisterUser] found and did. *)
Lemma RegisterUser_inserted (db db' : conn) (id email password : string) :
  RegisterUser lib db id email password = (db', None) ->
  exists hash,
    bcrypt_GenerateFromPassword lib (bytes_of_string password)
      bcrypt_DefaultCost = inl hash
    /\ failure db' = failure db
    /\ USER_table (tables db') =
       (USER_table (tables db) ++ [mkUserRow id email hash false])%list
    /\ TOKEN_table (tables db') = TOKEN_table (tables db)
    /\ (forall r, In r (USER_table (tables db)) ->
                  ID r <> id /\ EMAIL r <> email).
Proof.
  unfold RegisterUser.
  destruct (mail_ParseAddress lib email); [discriminate|].
  destruct (bcrypt_GenerateFromPassword _ _ _) as [hash|]; [|discriminate].
  destruct (failure db INSERT_INTO_USER); [discriminate|].
  destruct (existsb (fun r => String.eqb (EMAIL r) email) _) eqn:E2;
    [discriminate|].
  destruct (existsb (fun r => String.eqb (ID r) id) _) eqn:E1;
    [discriminate|].
  intros H. inversion H; subst; clear H. exists hash. simpl.
  repeat split; try reflexivity.
  - intros Hid. apply existsb_false_iff with (x := r) in E1; [|assumption].
    apply String.eqb_neq in E1. contradiction.
  - intros Hem. apply existsb_false_iff with (x := r) in E2; [|assumption].
    apply String.eqb_neq in E2. contradiction.
Qed.

(** A [RegisterUser] that fails leaves the connection as it was. *)
Lemma RegisterUser_failed (db db' : conn) (id email password : string)
  (err : error) :
  RegisterUser lib db id email password = (db', Some err) -> db' = db.
Proof.
  unfold RegisterUser.
  destruct (mail_ParseAddress lib email); [intros H; now inversion H|].
  destruct (bcrypt_GenerateFromPassword _ _ _); [|intros H; now inversion H].
  destruct (failure db INSERT_INTO_USER); [intros H; now inversion H|].
  destruct (existsb _ _); [intros H; now inversion H|].
  destruct (existsb _ _); intros H; now inversion H.
Qed.

(** X1. [RegisterUser] refuses an identifier or an email address that a
    stored user has: it returns an error and writes nothing. *)
Theorem RegisterUser_refuses_duplicates
  (db : conn) (id email password : string) :
  (exists r, In r (USER_table (tables db)) /\ (ID r = id \/ EMAIL r = email)) ->
  exists err, RegisterUser lib db id email password = (db, Some err).
Proof.
  intros (r & Hin & Hdup). unfold RegisterUser.
  destruct (mail_ParseAddress lib email); [eauto|].
  destruct (bcrypt_GenerateFromPassword _ _ _); [|eauto].
  destruct (failure db INSERT_INTO_USER); [eauto|].
  destruct (existsb (fun r => String.eqb (EMAIL r) email) _) eqn:E2; [eauto|].
  destruct (existsb (fun r => String.eqb (ID r) id) _) eqn:E1; [eauto|].
  exfalso.
  apply existsb_false_iff with (x := r) in E1; [|assumption].
  apply existsb_false_iff with (x := r) in E2; [|assumption].
  apply String.eqb_neq in E1, E2. tauto.
Qed.

(** The first row of [old ++ [new]] that a query selects is the new one
    when it selects none of the old. *)
Lemma find_appended {A : Type} (p : A -> bool) (old : list A) (new : A) :
  (forall x, In x old -> p x = false) -> p new = true ->
  find p (old ++ [new]) = Some new.
Proof.
  intros Hold Hnew. rewrite find_app.
  replace (find p old) with (@None A)
    by (symmetry; now apply find_none_iff).
  simpl. now rewrite Hnew.
Qed.

(** X2. A user just registered can authenticate by identifier and by
    email address alike: when no older user has the new identifier as
    email address or the new email address as identifier, [Authenticate]
    answers as bcrypt compares the password with the hash made at
    registration, nil on a match and [errBadCredentials] on a mismatch. *)
Theorem RegisterUser_then_Authenticate
  (db db' : conn) (id email password : string) :
  RegisterUser lib db id email password = (db', None) ->
  failure db SELECT_BCRYPT_FROM_USER = None ->
  (forall r, In r (USER_table (tables db)) -> EMAIL r <> id /\ ID r <> email) ->
  exists hash,
    bcrypt_GenerateFromPassword lib (bytes_of_string password)
      bcrypt_DefaultCost = inl hash
    /\ forall idOrEmail password2,
        idOrEmail = id \/ idOrEmail = email ->
        (bcrypt_CompareHashAndPassword lib hash (bytes_of_string password2)
         = None ->
         Authenticate lib db' idOrEmail password2 = None)
        /\ (bcrypt_CompareHashAndPassword lib hash
              (bytes_of_string password2)
            = Some ErrMismatchedHashAndPassword ->
            Authenticate lib db' idOrEmail password2
            = Some errBadCredentials).
Proof.
  intros Hreg Hf Hcross.
  apply RegisterUser_inserted in Hreg
    as (hash & Hhash & Hfail & Hus & _ & Hfresh).
  exists hash. split; [exact Hhash|].
  intros x password2 Hx.
  assert (Hfind :
    find (fun r => String.eqb (ID r) x || String.eqb (EMAIL r) x)
         (USER_by_index x (tables db'))
    = Some (mkUserRow id email hash false)).
  { apply (find_new_user x (tables db') (USER_table (tables db)) _ Hus).
    - intros r Hr. destruct (Hfresh r Hr) as [H1 H2].
      destruct (Hcross r Hr) as [H3 H4].
      unfold names. destruct Hx as [-> | ->]; tauto.
    - unfold names. simpl. destruct Hx as [-> | ->]; auto. }
  unfold Authenticate, QueryRow_Scan. rewrite Hfail, Hf, Hfind. simpl.
  split; intros ->; reflexivity.
Qed.

(** X3. After a successful [RegisterUser], [LookupByEmail] of the email
    address gives the identifier it was registered with. *)
Theorem RegisterUser_then_LookupByEmail
  (db db' : conn) (id email password : string) :
  RegisterUser lib db id email password = (db', None) ->
  failure db SELECT_ID_FROM_USER = None ->
  LookupByEmail db' email = (id, None).
Proof.
  intros Hreg Hf.
  apply RegisterUser_inserted in Hreg as (hash & _ & Hfail & Hus & _ & Hfresh).
  unfold LookupByEmail, QueryRow_Scan. rewrite Hfail, Hf, Hus.
  rewrite find_appended; [reflexivity | |apply String.eqb_refl].
  intros r Hr. apply String.eqb_neq. now destruct (Hfresh r Hr).
Qed.

End MoreCredentials.

Lemma RegisterUser_refuses_duplicates_witness :
  exists err,
    RegisterUser sampleLibraries (db_conn oneUserDB)
      "user2" "lol@localhost" "pw1" = (db_conn oneUserDB, Some err).
Proof.
  apply (RegisterUser_refuses_duplicates sampleLibraries (db_conn oneUserDB)
           "user2" "lol@localhost" "pw1").
  exists (mkUserRow "user1" "lol@localhost"
            (10 :: bytes_of_string "pw1") false).
  split; [left; reflexivity | right; reflexivity].
Defined.

Lemma RegisterUser_then_Authenticate_witness :
  Authenticate sampleLibraries (db_conn oneUserDB) "user1" "pw1" = None
  /\ Authenticate sampleLibraries (db_conn oneUserDB) "lol@localhost" "pw2"
     = Some errBadCredentials.
Proof.
  destruct (RegisterUser_then_Authenticate sampleLibraries
              (db_conn emptyDB) (db_conn oneUserDB)
              "user1" "lol@localhost" "pw1" eq_refl eq_refl)
    as (hash & Hhash & Hauth).
  - intros r [].
  - inversion Hhash; subst. split.
    + apply (Hauth "user1" "pw1"); [left; reflexivity | reflexivity].
    + apply (Hauth "lol@localhost" "pw2"); [right; reflexivity | reflexivity].
Defined.

Lemma RegisterUser_then_LookupByEmail_witness :
  LookupByEmail (db_conn oneUserDB) "lol@localhost" = ("user1", None).
Proof.
  apply (RegisterUser_then_LookupByEmail sampleLibraries (db_conn emptyDB)
           (db_conn oneUserDB) "user1" "lol@localhost" "pw1");
    reflexivity.
Defined.

(** X4. With the query going through and email addresses unique,
    [LookupByEmail] returns an identifier exactly when a stored user has
    the email address, and it is that user's; when no user has it the
    result is [errBadCredentials]. *)
Theorem LookupByEmail_spec (db : conn) (email : string) :
  failure db SELECT_ID_FROM_USER = None ->
  NoDup (map EMAIL (USER_table (tables db))) ->
  (forall uid,
      LookupByEmail db email = (uid, None) <->
      exists r, In r (USER_table (tables db))
                /\ EMAIL r = email /\ ID r = uid)
  /\ ((forall r, In r (USER_table (tables db)) -> EMAIL r <> email) ->
      LookupByEmail db email = ("", Some errBadCredentials)).
Proof.
  intros Hf Hnd. unfold LookupByEmail, QueryRow_Scan. rewrite Hf.
  destruct (find _ _) as [r0|] eqn:E.
  - apply find_some in E as [Hin0 Heq0]. apply String.eqb_eq in Heq0.
    split.
    + intros uid. split.
      * intros H. inversion H; subst. exists r0. auto.
      * intros (r & Hin & Hem & Hid).
        rewrite <- (NoDup_map_inj EMAIL _ r0 r Hnd Hin0 Hin) in Hid
          by congruence.
        now rewrite Hid.
    + intros Hnone. now apply Hnone in Hin0.
  - split; [|reflexivity].
    intros uid. split; [discriminate|].
    intros (r & Hin & Hem & _).
    apply find_none with (x := r) in E; [|assumption].
    apply String.eqb_neq in E. contradiction.
Qed.

Lemma LookupByEmail_spec_witness :
  LookupByEmail (db_conn oneUserDB) "nobody@localhost"
  = ("", Some errBadCredentials).
Proof.
  apply (LookupByEmail_spec (db_conn oneUserDB) "nobody@localhost").
  - reflexivity.
  - repeat constructor. simpl. tauto.
  - intros r [<- | []]. discriminate.
Defined.

(* ================================================================= *)
(** ** More on the token store *)

(** X5. [Lookup] gives a user only for a stored row: the row holds the
    token and the user, and its window contains the instant, in whole
    milliseconds.  When the query goes through and no row of the token
    has the instant in its window, the result is [errInvalidToken]. *)
Theorem Lookup_sound (db : conn) (t : Token) (now : Time) :
  (forall uid,
      Lookup db t now = (uid, None) ->
      exists r, In r (TOKEN_table (tables db))
                /\ TOKEN r = t /\ UID r = uid
                /\ START_TIME r <= UnixMilli now <= END_TIME r)
  /\ (failure db SELECT_UID_FROM_TOKEN = None ->
      (forall r, In r (TOKEN_table (tables db)) -> TOKEN r = t ->
                 ~ START_TIME r <= UnixMilli now <= END_TIME r) ->
      Lookup db t now = ("", Some errInvalidToken)).
Proof.
  unfold Lookup, QueryRow_Scan. split.
  - intros uid. destruct (failure db SELECT_UID_FROM_TOKEN).
    { destruct (errors_Is e ErrNoRows); discriminate. }
    destruct (find _ _) as [r|] eqn:E; [|discriminate].
    intros H. inversion H; subst. apply find_some in E as [Hin Hp].
    apply andb_true_iff in Hp as [Hp H3].
    apply andb_true_iff in Hp as [H1 H2].
    apply bytes_eqb_eq in H1. exists r. repeat split; try assumption; lia.
  - intros -> Hnone.
    replace (find _ _) with (@None TokenRow); [reflexivity|].
    symmetry. apply find_none_iff. intros r Hr.
    destruct (bytes_eqb (TOKEN r) t) eqn:E1; [|reflexivity].
    apply bytes_eqb_eq in E1. specialize (Hnone r Hr E1).
    simpl. apply andb_false_iff. lia.
Qed.

Lemma Lookup_sound_witness :
  Lookup twoTokens sampleToken (Time_UnixMilli 500)
  = ("", Some errInvalidToken).
Proof.
  apply (Lookup_sound twoTokens sampleToken (Time_UnixMilli 500)).
  - reflexivity.
  - intros r [<- | [<- | []]]; discriminate.
Defined.

(** X6. A token that [ReapTokens] has deleted is invalid from then on:
    when its row ended before the cutoff, [Lookup] fails with
    [errInvalidToken] at every instant, inside its old window too. *)
Theorem ReapTokens_then_Lookup (db : conn) (olderThan : Time)
  (r : TokenRow) :
  failure db DELETE_FROM_TOKEN = None ->
  failure db SELECT_UID_FROM_TOKEN = None ->
  TOKEN_primary_key (tables db) ->
  In r (TOKEN_table (tables db)) ->
  END_TIME r < UnixMilli olderThan ->
  forall now,
    Lookup (fst (ReapTokens db olderThan)) (TOKEN r) now
    = ("", Some errInvalidToken).
Proof.
  intros Hd Hs Hpk Hin Hend now.
  rewrite (ReapTokens_ok db olderThan Hd). cbn [fst].
  unfold Lookup, QueryRow_Scan. simpl. rewrite Hs.
  replace (find _ _) with (@None TokenRow); [reflexivity|].
  symmetry. apply find_none_iff. intros r' Hr'.
  apply filter_In in Hr' as [Hin' Hkept].
  destruct (bytes_eqb (TOKEN r') (TOKEN r)) eqn:E; [|reflexivity].
  apply bytes_eqb_eq in E.
  rewrite (NoDup_map_inj TOKEN _ r' r Hpk Hin' Hin E) in Hkept.
  apply negb_true_iff, Z.ltb_ge in Hkept. lia.
Qed.

Lemma ReapTokens_then_Lookup_witness :
  Lookup (fst (ReapTokens twoTokens (Time_UnixMilli 1500))) tokenOld
         (Time_UnixMilli 500)
  = ("", Some errInvalidToken).
Proof.
  apply (ReapTokens_then_Lookup twoTokens (Time_UnixMilli 1500)
           (mkTokenRow "test" tokenOld 0 1000)).
  - reflexivity.
  - reflexivity.
  - repeat constructor; simpl; intuition discriminate.
  - left. reflexivity.
  - vm_compute. reflexivity.
Defined.

(* ================================================================= *)
(** ** The constraints of the schema, kept by every call *)

Section Constraints.

Variable lib : Libraries.

Lemma RegisterUser_constraints (db : conn) (id email password : string) :
  USER_constraints (tables db) ->
  USER_constraints (tables (fst (RegisterUser lib db id email password))).
Proof.
  intros [Hid Hem].
  destruct (RegisterUser lib db id email password) as [db' [err|]] eqn:E.
  - apply RegisterUser_failed in E. subst. now split.
  - apply RegisterUser_inserted in E as (hash & _ & _ & Hus & _ & Hfresh).
    unfold USER_constraints. cbn [fst]. rewrite Hus, !map_app. simpl.
    split; (apply NoDup_app; [assumption | repeat constructor; simpl; tauto|]);
      intros x Hx [<- | []]; apply in_map_iff in Hx as (r & Hr & Hin);
      destruct (Hfresh r Hin); congruence.
Qed.

Lemma RegisterUser_tokens (db : conn) (id email password : string) :
  TOKEN_table (tables (fst (RegisterUser lib db id email password)))
  = TOKEN_table (tables db).
Proof.
  destruct (RegisterUser lib db id email password) as [db' [err|]] eqn:E.
  - apply RegisterUser_failed in E. now subst.
  - now apply RegisterUser_inserted in E as (hash & _ & _ & _ & Htk & _).
Qed.

Lemma RegisterUser_users_grow (db : conn) (id email password : string)
  (u : UserRow) :
  In u (USER_table (tables db)) ->
  In u (USER_table (tables (fst (RegisterUser lib db id email password)))).
Proof.
  intros Hu.
  destruct (RegisterUser lib db id email password) as [db' [err|]] eqn:E.
  - apply RegisterUser_failed in E. now subst.
  - apply RegisterUser_inserted in E as (hash & _ & _ & Hus & _).
    cbn [fst]. rewrite Hus. apply in_or_app. now left.
Qed.

Lemma GenerateToken_users (rnd : Token * option error) (db : conn)
  (uid : string) (start end_ : Time) :
  USER_table (tables (fst (GenerateToken rnd db uid start end_)))
  = USER_table (tables db).
Proof.
  destruct (GenerateToken rnd db uid start end_) as [db' [t [err|]]] eqn:E.
  - apply GenerateToken_err in E. now subst.
  - now apply GenerateToken_ok in E as (_ & _ & Hus & _).
Qed.

Lemma ReapTokens_users (db : conn) (olderThan : Time) :
  USER_table (tables (fst (ReapTokens db olderThan)))
  = USER_table (tables db).
Proof.
  unfold ReapTokens. now destruct (failure db DELETE_FROM_TOKEN).
Qed.

Lemma ReapTokens_subset (db : conn) (olderThan : Time) (r : TokenRow) :
  In r (TOKEN_table (tables (fst (ReapTokens db olderThan)))) ->
  In r (TOKEN_table (tables db)).
Proof.
  unfold ReapTokens. destruct (failure db DELETE_FROM_TOKEN); simpl;
    [auto|].
  intros H. now apply filter_In in H.
Qed.

(** What [DBAuthenticator.Authenticate] leaves in the tables: nothing
    new, or one token row for the user the email address resolves to. *)
Lemma Authenticate_tables (env : Ambient) (d : DB) (email password : string) :
  let d' := fst (DBAuthenticator.Authenticate lib env d email password) in
  d' = d
  \/ exists u tx',
      In u (USER_table (tables (db_conn d))) /\ EMAIL u = email
      /\ GenerateToken (rand_Read env) (db_conn d) (ID u)
           (Time_Add (now_second env) (- Second))
           (Time_Add (now_first env) (24 * Hour))
         = (tx', (fst (rand_Read env), None))
      /\ d' = DBAuthenticator.with_conn d tx'.
Proof.
  unfold DBAuthenticator.Authenticate.
  destruct (BeginTx_err d); [now left|].
  destruct (Authenticate lib (db_conn d) email password); [now left|].
  unfold LookupByEmail, QueryRow_Scan.
  destruct (failure (db_conn d) SELECT_ID_FROM_USER) as [e|].
  { destruct (errors_Is e ErrNoRows); now left. }
  destruct (find _ _) as [u|] eqn:Eu; [|now left].
  apply find_some in Eu as [Hin Hem]. apply String.eqb_eq in Hem.
  destruct (GenerateToken _ _ _ _ _) as [tx' [t [e|]]] eqn:G; [now left|].
  destruct (Commit_err d); [now left|].
  right. exists u, tx'. cbn [fst].
  pose proof (GenerateToken_ok _ _ _ _ _ _ _ G) as (Ht & _).
  rewrite Ht. auto.
Qed.

(** No call removes a user. *)
Lemma after_call_users_grow (d : DB) (c : call) (u : UserRow) :
  In u (USER_table (tables (db_conn d))) ->
  In u (USER_table (tables (db_conn (after_call lib d c)))).
Proof.
  intros Hu. destruct c as [id email pw | rnd uid st en | older
                            | email pw | env email pw]; simpl.
  - now apply RegisterUser_users_grow.
  - now rewrite GenerateToken_users.
  - now rewrite ReapTokens_users.
  - unfold DBAuthenticator.Register.
    pose proof (RegisterUser_users_grow (db_conn d) email email pw u Hu) as H.
    destruct (RegisterUser lib (db_conn d) email email pw) as [db' [e|]];
      exact H.
  - destruct (Authenticate_tables env d email pw)
      as [-> | (u' & tx' & _ & _ & G & ->)]; [exact Hu|].
    simpl. apply GenerateToken_ok in G as (_ & _ & -> & _). exact Hu.
Qed.

Lemma after_call_constraints (d : DB) (c : call) :
  USER_constraints (tables (db_conn d))
  /\ TOKEN_primary_key (tables (db_conn d)) ->
  USER_constraints (tables (db_conn (after_call lib d c)))
  /\ TOKEN_primary_key (tables (db_conn (after_call lib d c))).
Proof.
  intros [Hu Ht]. destruct c as [id email pw | rnd uid st en | older
                                | email pw | env email pw]; simpl.
  - split; [now apply RegisterUser_constraints|].
    unfold TOKEN_primary_key. now rewrite RegisterUser_tokens.
  - split.
    + unfold USER_constraints. now rewrite GenerateToken_users.
    + destruct (GenerateToken rnd (db_conn d) uid st en)
        as [db' [t err]] eqn:G.
      exact (GenerateToken_primary_key _ _ _ _ _ _ _ _ G Ht).
  - split; [|now apply ReapTokens_primary_key].
    unfold USER_constraints. now rewrite ReapTokens_users.
  - unfold DBAuthenticator.Register.
    pose proof (RegisterUser_constraints (db_conn d) email email pw Hu) as H1.
    pose proof (RegisterUser_tokens (db_conn d) email email pw) as H2.
    destruct (RegisterUser lib (db_conn d) email email pw) as [db' [e|]];
      simpl in *; (split; [assumption|]);
      unfold TOKEN_primary_key; now rewrite H2.
  - destruct (Authenticate_tables env d email pw)
      as [-> | (u & tx' & _ & _ & G & ->)]; [now split|].
    simpl. split.
    + unfold USER_constraints.
      apply GenerateToken_ok in G as (_ & _ & -> & _). exact Hu.
    + exact (GenerateToken_primary_key _ _ _ _ _ _ _ _ G Ht).
Qed.

(** X7. The constraints of the schema hold in every database the
    package's functions lead to from the empty one, whatever fails on the
    way: identifiers are unique, email addresses are unique, and no token
    is stored twice. *)
Theorem reachable_constraints (tb : Tables) :
  reachable lib any_call tb ->
  USER_constraints tb /\ TOKEN_primary_key tb.
Proof.
  induction 1 as [|d c Hr IH _].
  - repeat split; constructor.
  - now apply after_call_constraints.
Qed.

Lemma after_call_foreign_key (d : DB) (c : call) :
  through_login c ->
  TOKEN_foreign_key (tables (db_conn d)) ->
  TOKEN_foreign_key (tables (db_conn (after_call lib d c))).
Proof.
  intros Hc Hfk. destruct c as [id email pw | rnd uid st en | older
                                | email pw | env email pw]; simpl.
  - intros r Hr. rewrite RegisterUser_tokens in Hr.
    destruct (Hfk r Hr) as (u & Hu & Hid). exists u.
    split; [now apply RegisterUser_users_grow | assumption].
  - contradiction.
  - intros r Hr. apply ReapTokens_subset in Hr.
    rewrite ReapTokens_users. now apply Hfk.
  - unfold DBAuthenticator.Register.
    pose proof (RegisterUser_tokens (db_conn d) email email pw) as H2.
    pose proof (RegisterUser_users_grow (db_conn d) email email pw) as H3.
    destruct (RegisterUser lib (db_conn d) email email pw) as [db' [e|]];
      simpl in *; intros r Hr; rewrite H2 in Hr;
      destruct (Hfk r Hr) as (u & Hu & Hid); exists u; auto.
  - destruct (Authenticate_tables env d email pw)
      as [-> | (u & tx' & Hu & _ & G & ->)]; [assumption|].
    simpl. apply GenerateToken_ok in G as (_ & _ & Hus & Htk & _).
    intros r Hr. rewrite Hus. rewrite Htk in Hr.
    apply in_app_or in Hr as [Hr | [<- | []]]; [now apply Hfk|].
    exists u. auto.
Qed.

(** X8. The foreign key of [TOKEN] is not enforced by the store, and yet
    it holds as long as tokens are generated by
    [DBAuthenticator.Authenticate] only: in every database reached from
    the empty one by [RegisterUser], [ReapTokens],
    [DBAuthenticator.Register] and [DBAuthenticator.Authenticate], each
    token belongs to a stored user. *)
Theorem reachable_foreign_key (tb : Tables) :
  reachable lib through_login tb -> TOKEN_foreign_key tb.
Proof.
  induction 1 as [|d c Hr IH Hc].
  - intros r [].
  - now apply after_call_foreign_key.
Qed.

End Constraints.

Lemma reachable_constraints_witness :
  USER_constraints (tables (db_conn oneUserDB))
  /\ TOKEN_primary_key (tables (db_conn oneUserDB)).
Proof.
  apply (reachable_constraints sampleLibraries).
  apply (@reachable_call sampleLibraries any_call emptyDB
           (call_RegisterUser "user1" "lol@localhost" "pw1")).
  - apply reachable_empty.
  - exact I.
Defined.

Lemma reachable_foreign_key_witness :
  TOKEN_foreign_key
    (tables (db_conn (fst (DBAuthenticator.Authenticate sampleLibraries
                             sampleAmbient oneUserDB
                             "lol@localhost" "pw1")))).
Proof.
  apply (reachable_foreign_key sampleLibraries).
  apply (@reachable_call sampleLibraries through_login oneUserDB
           (call_Authenticate sampleAmbient "lol@localhost" "pw1")).
  - apply (@reachable_call sampleLibraries through_login emptyDB
             (call_RegisterUser "user1" "lol@localhost" "pw1")).
    + apply reachable_empty.
    + exact I.
  - exact I.
Defined.

(** A bare [GenerateToken] is what can break the foreign key:
    TestTokenGeneration stores a token for a user that was never
    registered. *)
Example GenerateToken_without_user :
  ~ TOKEN_foreign_key (tables twoTokens).
Proof.
  intros H.
  destruct (H (mkTokenRow "test" tokenOld 0 1000)) as (u & [] & _).
  left. reflexivity.
Qed.

(* ================================================================= *)
(** ** More on [DBAuthenticator] *)

Section Login.

Variable lib : Libraries.
Variable env : Ambient.

(** The steps behind a successful [DBAuthenticator.Authenticate]. *)
Lemma Authenticate_steps (d d' : DB) (email password : string)
  (t : Token) (expiration : Time) :
  DBAuthenticator.Authenticate lib env d email password
  = (d', (t, expiration, None)) ->
  expiration = Time_Add (now_first env) (24 * Hour)
  /\ Authenticate lib (db_conn d) email password = None
  /\ exists uid tx',
      LookupByEmail (db_conn d) email = (uid, None)
      /\ GenerateToken (rand_Read env) (db_conn d) uid
           (Time_Add (now_second env) (- Second)) expiration
         = (tx', (t, None))
      /\ d' = DBAuthenticator.with_conn d tx'.
Proof.
  unfold DBAuthenticator.Authenticate.
  destruct (BeginTx_err d); [discriminate|].
  destruct (Authenticate lib (db_conn d) email password); [discriminate|].
  destruct (LookupByEmail (db_conn d) email) as [uid [e|]]; [discriminate|].
  destruct (GenerateToken _ _ _ _ _) as [tx' [t' [e|]]] eqn:G;
    [discriminate|].
  destruct (Commit_err d); [discriminate|].
  intros H. inversion H; subst; clear H.
  split; [reflexivity|]. split; [reflexivity|]. exists uid, tx'. auto.
Qed.

Lemma LookupByEmail_found (db : conn) (email uid : string) :
  LookupByEmail db email = (uid, None) ->
  exists u, In u (USER_table (tables db)) /\ EMAIL u = email /\ ID u = uid.
Proof.
  unfold LookupByEmail, QueryRow_Scan.
  destruct (failure db SELECT_ID_FROM_USER) as [e|].
  { destruct (errors_Is e ErrNoRows); discriminate. }
  destruct (find _ _) as [u|] eqn:E; [|discriminate].
  intros H. inversion H; subst. apply find_some in E as [Hin Hem].
  apply String.eqb_eq in Hem. eauto.
Qed.

(** X9. A successful [DBAuthenticator.Authenticate] returns the bytes
    [rand.Read] gave and the instant 24 hours after the first reading of
    the clock, and it adds exactly one row to the store: that token, for
    a stored user who has the email address, valid from one second before
    the second reading of the clock to the returned expiration.  The
    users are as before. *)
Theorem Authenticate_issues_token (d d' : DB) (email password : string)
  (t : Token) (expiration : Time) :
  DBAuthenticator.Authenticate lib env d email password
  = (d', (t, expiration, None)) ->
  t = fst (rand_Read env)
  /\ expiration = Time_Add (now_first env) (24 * Hour)
  /\ USER_table (tables (db_conn d')) = USER_table (tables (db_conn d))
  /\ exists u,
      In u (USER_table (tables (db_conn d))) /\ EMAIL u = email
      /\ TOKEN_table (tables (db_conn d')) =
         (TOKEN_table (tables (db_conn d))
          ++ [mkTokenRow (ID u) t
                (UnixMilli (Time_Add (now_second env) (- Second)))
                (UnixMilli expiration)])%list.
Proof.
  intros H.
  apply Authenticate_steps in H as (Hexp & _ & uid & tx' & Hl & G & ->).
  apply LookupByEmail_found in Hl as (u & Hin & Hem & <-).
  apply GenerateToken_ok in G as (Ht & _ & Hus & Htk & _).
  simpl. repeat split; auto. exists u. auto.
Qed.

(** X10. The token a successful [DBAuthenticator.Authenticate] returns
    is accepted by [Validate] at every instant from one second before the
    issue to the expiration, in whole milliseconds, as long as the lookup
    goes through. *)
Theorem Authenticate_then_Validate (d d' : DB) (email password : string)
  (t : Token) (expiration now : Time) :
  DBAuthenticator.Authenticate lib env d email password
  = (d', (t, expiration, None)) ->
  failure (db_conn d) SELECT_UID_FROM_TOKEN = None ->
  UnixMilli (Time_Add (now_second env) (- Second)) <= UnixMilli now
  <= UnixMilli expiration ->
  DBAuthenticator.Validate now d' t = None.
Proof.
  intros H Hf Hnow.
  apply Authenticate_steps in H as (_ & _ & uid & tx' & _ & G & ->).
  unfold DBAuthenticator.Validate. simpl.
  rewrite (Lookup_generated _ _ _ _ _ _ now _ G Hf).
  replace (_ && _) with true; [reflexivity|].
  symmetry. apply andb_true_iff. split; [apply Z.leb_le | apply Z.geb_le];
    lia.
Qed.

(** X11. [DBAuthenticator.Authenticate] logs in by email address only.
    The credential check accepts an identifier too, but the user is then
    resolved by email address: when no stored user has the given string as
    email address, every call fails and writes nothing, and where the
    credentials were accepted the error is [errBadCredentials] wrapped by
    the lookup. *)
Theorem Authenticate_needs_email (d : DB) (email password : string) :
  failure (db_conn d) SELECT_ID_FROM_USER = None ->
  (forall r, In r (USER_table (tables (db_conn d))) -> EMAIL r <> email) ->
  exists t expiration err,
    DBAuthenticator.Authenticate lib env d email password
    = (d, (t, expiration, Some err))
    /\ (BeginTx_err d = None ->
        Authenticate lib (db_conn d) email password = None ->
        err = Errorf "lookup email" errBadCredentials).
Proof.
  intros Hf Hnone. unfold DBAuthenticator.Authenticate.
  destruct (BeginTx_err d).
  { do 3 eexists. split; [reflexivity | discriminate]. }
  destruct (Authenticate lib (db_conn d) email password).
  { do 3 eexists. split; [reflexivity | discriminate]. }
  replace (LookupByEmail (db_conn d) email)
    with ("", Some errBadCredentials).
  { do 3 eexists. split; reflexivity. }
  unfold LookupByEmail, QueryRow_Scan. rewrite Hf.
  replace (find _ _) with (@None UserRow); [reflexivity|].
  symmetry. apply find_none_iff. intros r Hr.
  apply String.eqb_neq. now apply Hnone.
Qed.

End Login.

Lemma Authenticate_issues_token_witness :
  map UID (TOKEN_table (tables (db_conn
    (fst (DBAuthenticator.Authenticate sampleLibraries sampleAmbient
            oneUserDB "lol@localhost" "pw1")))))
  = ["user1"].
Proof.
  destruct (Authenticate_issues_token sampleLibraries sampleAmbient oneUserDB
              (fst (DBAuthenticator.Authenticate sampleLibraries
                      sampleAmbient oneUserDB "lol@localhost" "pw1"))
              "lol@localhost" "pw1" sampleToken
              (Time_Add (now_first sampleAmbient) (24 * Hour)) eq_refl)
    as (_ & _ & _ & u & [<- | []] & _ & Htk).
  rewrite Htk. reflexivity.
Defined.

Lemma Authenticate_then_Validate_witness :
  DBAuthenticator.Validate (Time_UnixMilli 5000)
    (fst (DBAuthenticator.Authenticate sampleLibraries sampleAmbient
            oneUserDB "lol@localhost" "pw1"))
    sampleToken
  = None.
Proof.
  apply (Authenticate_then_Validate sampleLibraries sampleAmbient oneUserDB
           _ "lol@localhost" "pw1" sampleToken
           (Time_Add (now_first sampleAmbient) (24 * Hour))
           (Time_UnixMilli 5000) eq_refl eq_refl).
  vm_compute. split; discriminate.
Defined.

Lemma Authenticate_needs_email_witness :
  Authenticate sampleLibraries (db_conn oneUserDB) "user1" "pw1" = None
  /\ exists t expiration,
      DBAuthenticator.Authenticate sampleLibraries sampleAmbient oneUserDB
        "user1" "pw1"
      = (oneUserDB,
         (t, expiration, Some (Errorf "lookup email" errBadCredentials))).
Proof.
  split; [reflexivity|].
  destruct (Authenticate_needs_email sampleLibraries sampleAmbient oneUserDB
              "user1" "pw1" eq_refl) as (t & expiration & err & E & Herr).
  - intros r [<- | []]. discriminate.
  - rewrite (Herr eq_refl eq_refl) in E. eauto.
Defined.

(* ================================================================= *)
(** ** More on the login and signup handlers *)

Lemma Values_Get_Header_Set (h : list (string * string)) (k v : string) :
  Values_Get (Header_Set h k v) k = v.
Proof.
  unfold Values_Get, Header_Set. simpl. now rewrite String.eqb_refl.
Qed.

Lemma Values_Get_Header_Set_other (h : list (string * string))
  (k k' v : string) :
  k <> k' -> Values_Get (Header_Set h k v) k' = Values_Get h k'.
Proof.
  intros Hk. unfold Values_Get, Header_Set. simpl.
  apply String.eqb_neq in Hk. rewrite Hk.
  induction h as [|[k0 v0] h IH]; simpl; [reflexivity|].
  destruct (String.eqb k0 k) eqn:E0; simpl.
  - apply String.eqb_eq in E0. subst k0. rewrite Hk. exact IH.
  - destruct (String.eqb k0 k'); [reflexivity | exact IH].
Qed.

Section MoreServer.

Variable S : Type.
Variable fmtTime : Time -> string.
Variable a : Authenticator S.

(** X12. The answer to bad credentials does not tell why they were bad.
    Whatever error [Authenticate] returns, as long as it wraps
    [errBadCredentials], the login handler sends the status 401 with one
    fixed message; nothing of the error itself reaches the response. *)
Theorem loginPageHandler_bad_credentials
  (s s' : S) (w : ResponseWriter) (r : Request)
  (t : Token) (expires : Time) (err : error) :
  Method r = "POST" -> ParseForm r = None ->
  Authenticate_method a s (PostFormValue r "email")
    (PostFormValue r "password") = (s', (t, expires, Some err)) ->
  errors_Is err errBadCredentials = true ->
  AuthServer.loginPageHandler fmtTime a s w r =
  (s', http_Error w
         "authenticate: failed to authenticate, username or password is incorrect"
         StatusUnauthorized).
Proof.
  intros Hm Hf E His. unfold AuthServer.loginPageHandler.
  rewrite Hm, Hf. simpl. rewrite E. simpl. rewrite His. reflexivity.
Qed.

(** The response of a login that succeeded. *)
Lemma loginPageHandler_POST_ok
  (s s' : S) (w : ResponseWriter) (r : Request)
  (t : Token) (expires : Time) :
  Method r = "POST" -> ParseForm r = None ->
  Authenticate_method a s (PostFormValue r "email")
    (PostFormValue r "password") = (s', (t, expires, None)) ->
  AuthServer.loginPageHandler fmtTime a s w r =
  (s',
   http_Redirect
     (mkResponse
        (Header_Set (Header w) "Set-Cookie"
           ("auth_token=" ++ Token_String t ++ "; Expires="
            ++ fmtTime expires ++ "; Secure; Path=/"))
        (status w) (body w))
     r
     (if String.eqb (Values_Get (URL_Query r) "redirect") ""
      then "/" else Values_Get (URL_Query r) "redirect")
     StatusFound).
Proof.
  intros Hm Hf E. unfold AuthServer.loginPageHandler.
  rewrite Hm, Hf. simpl. rewrite E. reflexivity.
Qed.

(** X13. A successful login answers a fresh response with the status 302:
    it sets a [Set-Cookie] header that carries the text of the token and
    the formatted expiration, and then calls [http.Redirect] with the
    [redirect] parameter of the query, or with [/] when there is none or it
    is empty; it writes nothing to the body, and the state is the one
    [Authenticate] left. *)
Theorem loginPageHandler_success
  (s s' : S) (w : ResponseWriter) (r : Request)
  (t : Token) (expires : Time) :
  status w = None -> Method r = "POST" -> ParseForm r = None ->
  Authenticate_method a s (PostFormValue r "email")
    (PostFormValue r "password") = (s', (t, expires, None)) ->
  let cookie :=
    "auth_token=" ++ Token_String t ++ "; Expires=" ++ fmtTime expires
    ++ "; Secure; Path=/" in
  let target :=
    if String.eqb (Values_Get (URL_Query r) "redirect") ""
    then "/" else Values_Get (URL_Query r) "redirect" in
  let w' := snd (AuthServer.loginPageHandler fmtTime a s w r) in
  fst (AuthServer.loginPageHandler fmtTime a s w r) = s'
  /\ w' = http_Redirect
            (mkResponse (Header_Set (Header w) "Set-Cookie" cookie)
                        (status w) (body w))
            r target StatusFound
  /\ status w' = Some StatusFound
  /\ Values_Get (Header w') "Set-Cookie" = cookie
  /\ body w' = body w.
Proof.
  intros Hw Hm Hf E cookie target.
  rewrite (loginPageHandler_POST_ok s s' w r t expires Hm Hf E).
  cbn [fst snd]. fold cookie target.
  split; [reflexivity|]. split; [reflexivity|].
  split; [apply status_http_Redirect; exact Hw|].
  unfold http_Redirect, WriteHeader. cbn [status Header body]. rewrite Hw.
  cbn [status Header body].
  split; [|reflexivity].
  rewrite Values_Get_Header_Set_other by discriminate.
  apply Values_Get_Header_Set.
Qed.

(** X14. Neither handler reaches the authenticator unless the request is
    a POST whose form parses: a GET is answered with the status 200, any
    other method and a form that does not parse with 400, and the state
    behind the authenticator is as before. *)
Theorem handlers_without_form
  (s : S) (w : ResponseWriter) (r : Request) :
  status w = None ->
  Method r <> "POST" \/ ParseForm r <> None ->
  let answer :=
    Some (if String.eqb (Method r) "GET" then StatusOK
          else StatusBadRequest) in
  fst (AuthServer.loginPageHandler fmtTime a s w r) = s
  /\ status (snd (AuthServer.loginPageHandler fmtTime a s w r)) = answer
  /\ fst (AuthServer.signupPageHandler fmtTime a s w r) = s
  /\ status (snd (AuthServer.signupPageHandler fmtTime a s w r)) = answer.
Proof.
  intros Hw Hbad. unfold AuthServer.loginPageHandler,
    AuthServer.signupPageHandler.
  destruct (String.eqb (Method r) "GET") eqn:Eg.
  - cbn [fst snd]. unfold Write, WriteHeader. rewrite Hw. simpl. auto.
  - destruct (String.eqb (Method r) "POST") eqn:Ep; cbn [negb fst snd].
    + apply String.eqb_eq in Ep.
      destruct Hbad as [Hbad | Hbad]; [contradiction|].
      destruct (ParseForm r) as [e|]; [|contradiction]. cbn [fst snd].
      rewrite !status_http_Error by assumption. auto.
    + rewrite !status_http_Error by assumption. auto.
Qed.

End MoreServer.

Lemma loginPageHandler_bad_credentials_witness :
  snd (AuthServer.loginPageHandler sampleFormat
         (DBAuthenticator_Authenticator sampleLibraries sampleAmbient)
         oneUserDB emptyResponse
         (mkRequest "POST" "/login" "" [] [] None
            [("email", "user1"); ("password", "pw1")]))
  = snd (AuthServer.loginPageHandler sampleFormat
           (DBAuthenticator_Authenticator sampleLibraries sampleAmbient)
           oneUserDB emptyResponse
           (mkRequest "POST" "/login" "" [] [] None
              [("email", "lol@localhost"); ("password", "pw2")])).
Proof.
  rewrite (loginPageHandler_bad_credentials DB sampleFormat
             (DBAuthenticator_Authenticator sampleLibraries sampleAmbient)
             oneUserDB oneUserDB emptyResponse
             (mkRequest "POST" "/login" "" [] [] None
                [("email", "user1"); ("password", "pw1")])
             zeroToken (Time_Add (now_first sampleAmbient) (24 * Hour))
             (Errorf "lookup email" errBadCredentials)
             eq_refl eq_refl eq_refl eq_refl).
  rewrite (loginPageHandler_bad_credentials DB sampleFormat
             (DBAuthenticator_Authenticator sampleLibraries sampleAmbient)
             oneUserDB oneUserDB emptyResponse
             (mkRequest "POST" "/login" "" [] [] None
                [("email", "lol@localhost"); ("password", "pw2")])
             zeroToken (Time_Add (now_first sampleAmbient) (24 * Hour))
             (Errorf "authorization" errBadCredentials)
             eq_refl eq_refl eq_refl eq_refl).
  reflexivity.
Defined.

Lemma loginPageHandler_success_witness :
  let r :=
    mkRequest "POST" "/login?redirect=%2Fsecured"
      "redirect=%2Fsecured" [("redirect", "/secured")] [] None
      [("email", "lol@localhost"); ("password", "pw1")] in
  let cookie :=
    "auth_token=" ++ Token_String sampleToken ++ "; Expires="
    ++ sampleFormat (Time_Add (now_first sampleAmbient) (24 * Hour))
    ++ "; Secure; Path=/" in
  let w' :=
    snd (AuthServer.loginPageHandler sampleFormat
           (DBAuthenticator_Authenticator sampleLibraries sampleAmbient)
           oneUserDB emptyResponse r) in
  w' = http_Redirect (mkResponse [("Set-Cookie", cookie)] None "") r
         "/secured" StatusFound
  /\ status w' = Some StatusFound
  /\ Values_Get (Header w') "Set-Cookie" = cookie.
Proof.
  intros r cookie w'.
  destruct (loginPageHandler_success DB sampleFormat
              (DBAuthenticator_Authenticator sampleLibraries sampleAmbient)
              oneUserDB
              (fst (DBAuthenticator.Authenticate sampleLibraries
                      sampleAmbient oneUserDB "lol@localhost" "pw1"))
              emptyResponse r
              sampleToken (Time_Add (now_first sampleAmbient) (24 * Hour))
              eq_refl eq_refl eq_refl eq_refl)
    as (_ & Hr & Hs & Hc & _).
  split; [exact Hr|]. split; [exact Hs | exact Hc].
Defined.

Lemma handlers_without_form_witness :
  status (snd (AuthServer.signupPageHandler sampleFormat
                 (DBAuthenticator_Authenticator sampleLibraries
                    sampleAmbient)
                 emptyDB emptyResponse
                 (mkRequest "DELETE" "/signup" "" [] [] None [])))
  = Some StatusBadRequest.
Proof.
  apply (handlers_without_form DB sampleFormat
           (DBAuthenticator_Authenticator sampleLibraries sampleAmbient)
           emptyDB emptyResponse
           (mkRequest "DELETE" "/signup" "" [] [] None []) eq_refl).
  left. discriminate.
Defined.

(* ================================================================= *)
(** ** Signing up, logging in, and passing the filter *)

Section EndToEnd.

Variable lib : Libraries.
Variable env : Ambient.
Variable fmtTime : Time -> string.

(** The result of a [RegisterUser] that nothing stops. *)
Lemma RegisterUser_succeeds (db : conn) (id email password : string)
  (hash : list Z) :
  mail_ParseAddress lib email = None ->
  bcrypt_GenerateFromPassword lib (bytes_of_string password)
    bcrypt_DefaultCost = inl hash ->
  failure db INSERT_INTO_USER = None ->
  (forall u, In u (USER_table (tables db)) -> ID u <> id /\ EMAIL u <> email) ->
  RegisterUser lib db id email password =
  (with_tables db
     (mkTables (USER_table (tables db) ++ [mkUserRow id email hash false])
               (TOKEN_table (tables db))),
   None).
Proof.
  intros Hp Hh Hf Hfresh. unfold RegisterUser. rewrite Hp, Hh, Hf.
  replace (existsb (fun r => String.eqb (ID r) id) _) with false.
  - replace (existsb (fun r => String.eqb (EMAIL r) email) _) with false;
      [reflexivity|].
    symmetry. apply existsb_false_iff. intros u Hu.
    apply String.eqb_neq. now destruct (Hfresh u Hu).
  - symmetry. apply existsb_false_iff. intros u Hu.
    apply String.eqb_neq. now destruct (Hfresh u Hu).
Qed.

(** X15. Signing up logs the new user in at once.  On a POST whose form
    parses, with an address [mail.ParseAddress] accepts that no stored
    user has as identifier or email address, a password bcrypt hashes and
    verifies, fresh random bytes and a store that does not fail, the
    signup handler answers 302 with the cookie of a new token, and the
    store holds one more user, with the address as identifier and email
    address, and one more token, which is that user's. *)
Theorem signup_registers_and_logs_in
  (d : DB) (w : ResponseWriter) (r : Request) (hash : list Z) (t : Token) :
  let email := PostFormValue r "email" in
  let password := PostFormValue r "password" in
  status w = None -> Method r = "POST" -> ParseForm r = None ->
  (forall q, failure (db_conn d) q = None) ->
  BeginTx_err d = None -> Commit_err d = None ->
  mail_ParseAddress lib email = None ->
  bcrypt_GenerateFromPassword lib (bytes_of_string password)
    bcrypt_DefaultCost = inl hash ->
  bcrypt_CompareHashAndPassword lib hash (bytes_of_string password) = None ->
  (forall u, In u (USER_table (tables (db_conn d))) ->
             ID u <> email /\ EMAIL u <> email) ->
  rand_Read env = (t, None) ->
  (forall k, In k (TOKEN_table (tables (db_conn d))) -> TOKEN k <> t) ->
  let served :=
    AuthServer.signupPageHandler fmtTime
      (DBAuthenticator_Authenticator lib env) d w r in
  status (snd served) = Some StatusFound
  /\ Values_Get (Header (snd served)) "Set-Cookie" =
     "auth_token=" ++ Token_String t ++ "; Expires="
     ++ fmtTime (Time_Add (now_first env) (24 * Hour)) ++ "; Secure; Path=/"
  /\ USER_table (tables (db_conn (fst served))) =
     (USER_table (tables (db_conn d))
      ++ [mkUserRow email email hash false])%list
  /\ TOKEN_table (tables (db_conn (fst served))) =
     (TOKEN_table (tables (db_conn d))
      ++ [mkTokenRow email t
            (UnixMilli (Time_Add (now_second env) (- Second)))
            (UnixMilli (Time_Add (now_first env) (24 * Hour)))])%list.
Proof.
  intros email password Hw Hm Hf Hfail Hb Hc Hp Hh Hcmp Hfresh Hrnd Htok.
  set (users' := (USER_table (tables (db_conn d))
                  ++ [mkUserRow email email hash false])%list).
  set (d1 := DBAuthenticator.with_conn d
               (with_tables (db_conn d)
                  (mkTables users' (TOKEN_table (tables (db_conn d)))))).
  assert (Hreg : DBAuthenticator.Register lib d email password = (d1, None)).
  { unfold DBAuthenticator.Register.
    now rewrite (RegisterUser_succeeds (db_conn d) email email password hash
                   Hp Hh (Hfail _) Hfresh). }
  set (row := mkTokenRow email t
                (UnixMilli (Time_Add (now_second env) (- Second)))
                (UnixMilli (Time_Add (now_first env) (24 * Hour)))).
  set (d2 := DBAuthenticator.with_conn d
               (with_tables (db_conn d)
                  (mkTables users'
                     (TOKEN_table (tables (db_conn d)) ++ [row])))).
  assert (Hlog : DBAuthenticator.Authenticate lib env d1 email password
                 = (d2, (t, Time_Add (now_first env) (24 * Hour), None))).
  { unfold DBAuthenticator.Authenticate. cbn [BeginTx_err Commit_err d1
      DBAuthenticator.with_conn db_conn]. rewrite Hb, Hc.
    unfold Authenticate, LookupByEmail, QueryRow_Scan.
    cbn [failure with_tables tables]. rewrite !Hfail.
    rewrite (find_new_user email (mkTables users' _)
               (USER_table (tables (db_conn d)))
               (mkUserRow email email hash false) eq_refl);
      [| intros u Hu; destruct (Hfresh u Hu); unfold names; tauto
       | now left].
    cbn [BCRYPT USER_table]. rewrite Hcmp. unfold users'.
    rewrite find_appended;
      [| intros u Hu; destruct (Hfresh u Hu); now apply String.eqb_neq
       | simpl; now rewrite String.eqb_refl].
    cbn [ID]. unfold GenerateToken. rewrite Hrnd.
    cbn [failure with_tables tables TOKEN_table USER_table]. rewrite Hfail.
    replace (existsb _ _) with false; [reflexivity|].
    symmetry. apply existsb_false_iff. intros k Hk.
    destruct (bytes_eqb (TOKEN k) t) eqn:E; [|reflexivity].
    apply bytes_eqb_eq in E. now apply Htok in Hk. }
  intros served. subst served. unfold AuthServer.signupPageHandler.
  rewrite Hm, Hf.
  change (String.eqb "POST" "GET") with false.
  change (String.eqb "POST" "POST") with true.
  cbn [negb Register_method DBAuthenticator_Authenticator].
  fold email password. rewrite Hreg. cbv beta iota.
  rewrite (loginPageHandler_POST_ok DB fmtTime
             (DBAuthenticator_Authenticator lib env) d1 d2 w r t
             (Time_Add (now_first env) (24 * Hour)) Hm Hf Hlog).
  cbn [fst snd].
  unfold http_Redirect, WriteHeader. cbn [status Header body]. rewrite Hw.
  cbn [status Header body].
  split; [reflexivity|].
  split; [|split; reflexivity].
  rewrite Values_Get_Header_Set_other by discriminate.
  apply Values_Get_Header_Set.
Qed.



End EndToEnd.

Lemma signup_registers_and_logs_in_witness :
  let served :=
    AuthServer.signupPageHandler sampleFormat
      (DBAuthenticator_Authenticator sampleLibraries sampleAmbient)
      emptyDB emptyResponse (signupPOST "a@x.com" "pw") in
  status (snd served) = Some StatusFound
  /\ map UID (TOKEN_table (tables (db_conn (fst served)))) = ["a@x.com"].
Proof.
  destruct (signup_registers_and_logs_in sampleLibraries sampleAmbient
              sampleFormat emptyDB emptyResponse (signupPOST "a@x.com" "pw")
              (10 :: bytes_of_string "pw") sampleToken)
    as (Hst & _ & _ & Htk); try reflexivity.
  - intros u [].
  - intros k [].
  - split; [exact Hst|]. rewrite Htk. reflexivity.
Defined.


Lemma Handler_returns_witness :
  exists l,
    AuthFilter.Handler
      (mkAuthFilter (DBAuthenticator_Validator 0)
         "http://localhost:8090/auth/login")
      (fun t w _ => Write w (string_of_bytes t)) emptyDB emptyResponse
      (mkRequest "GET" "/secured?a=b c" "a=b c" [("a", "b c")] [] None [])
    = Return (mkServed
                (http_Redirect emptyResponse
                   (mkRequest "GET" "/secured?a=b c" "a=b c"
                      [("a", "b c")] [] None [])
                   "http://localhost:8090/auth/login?redirect=%2Fsecured%3Fa%3Db+c"
                   StatusFound) l).
Proof.
  apply (Handler_returns DB
           (mkAuthFilter (DBAuthenticator_Validator 0)
              "http://localhost:8090/auth/login")
           (fun t w _ => Write w (string_of_bytes t)) emptyDB emptyResponse
           (mkRequest "GET" "/secured?a=b c" "a=b c" [("a", "b c")] [] None
              [])).
  reflexivity.
Defined.

(* ================================================================= *)
(** ** What goes into a URL and into a cookie *)

Lemma bytes_of_string_range (s : string) : Forall is_byte (bytes_of_string s).
Proof.
  unfold bytes_of_string. apply Forall_forall. intros b Hb.
  apply in_map_iff in Hb as (a & <- & _).
  pose proof (N_ascii_bounded a). unfold is_byte. lia.
Qed.

Lemma escapeByte_safe (c : Z) :
  is_byte c ->
  Forall (fun b => is_byte b /\ query_safe b = true) (escapeByte c).
Proof.
  intros Hc.
  assert (H : forallb (fun b => (0 <=? b) && (b <? 256) && query_safe b)
                (escapeByte c) = true).
  { revert c Hc.
    apply (range_forallb
             (fun c => forallb
                         (fun b => (0 <=? b) && (b <? 256) && query_safe b)
                         (escapeByte c)) 256).
    vm_compute. reflexivity. }
  rewrite forallb_forall in H. apply Forall_forall. intros b Hb.
  apply H in Hb. apply andb_true_iff in Hb as [Hb Hs].
  apply andb_true_iff in Hb as [H1 H2]. unfold is_byte. split; [lia|auto].
Qed.

(** X18. [QueryEscape] lets nothing through that could end or split the
    parameter it is put in: every byte of its result is a letter, a digit
    or one of [-_.~+%].  So the URL a request came with, whatever it
    holds, stays inside the [redirect] parameter of the login URL. *)
Theorem QueryEscape_safe (s : string) :
  forallb query_safe (bytes_of_string (QueryEscape s)) = true.
Proof.
  unfold QueryEscape.
  assert (H : Forall (fun b => is_byte b /\ query_safe b = true)
                (flat_map escapeByte (bytes_of_string s))).
  { pose proof (bytes_of_string_range s) as Hs.
    induction Hs as [|c l Hc Hl IH]; simpl; [constructor|].
    apply Forall_app. split; [now apply escapeByte_safe | exact IH]. }
  rewrite bytes_of_string_of_bytes.
  - apply forallb_forall. intros b Hb.
    rewrite Forall_forall in H. now apply H.
  - eapply Forall_impl; [|exact H]. now intros b [Hb _].
Qed.

(** X19. The text of a token, the value of the cookie, always has 24
    bytes: 22 digits of the base64 alphabet and the padding [==]. *)
Theorem Token_String_shape (t : Token) :
  List.length t = 16%nat ->
  exists digits,
    bytes_of_string (Token_String t) = (digits ++ [61; 61])%list
    /\ List.length digits = 22%nat
    /\ Forall (fun c => base64.decodeMap c < 64) digits.
Proof.
  intros Hlen.
  do 17 (destruct t as [|? t]; try discriminate Hlen). clear Hlen.
  unfold Token_String, base64.EncodeToString.
  rewrite bytes_of_string_of_bytes by apply Encode_is_bytes.
  rewrite !Encode_cons3, Encode_1.
  eexists (_ :: _ :: _ :: _ :: _ :: _ :: _ :: _ :: _ :: _ :: _ :: _ :: _
           :: _ :: _ :: _ :: _ :: _ :: _ :: _ :: _ :: [_]).
  split; [reflexivity|]. split; [reflexivity|].
  repeat constructor;
    rewrite decodeMap_encode by (apply digit_range; lia);
    apply digit_range; lia.
Qed.

Lemma Token_String_shape_witness :
  exists digits,
    bytes_of_string (Token_String sampleToken) = (digits ++ [61; 61])%list
    /\ List.length digits = 22%nat
    /\ Forall (fun c => base64.decodeMap c < 64) digits.
Proof.
  apply (Token_String_shape sampleToken). reflexivity.
Defined.

(* ================================================================= *)
(** ** Creating the tables, starting the server *)

Lemma Initialize_existing (f : ddl -> option error) (tb : Tables)
  (c : Catalog) :
  Initialize f (Catalog_of tb) = (c, None) -> c = Catalog_of tb.
Proof.
  unfold Initialize, Initialize_steps, Initialize_range.
  destruct (f CREATE_TABLE_USER); [discriminate|].
  destruct (f CREATE_TABLE_TOKEN); [discriminate|].
  simpl. intros H. now inversion H.
Qed.

(** X20. When the driver fails neither statement, [Initialize] succeeds
    and leaves both tables in place: a table that was there keeps its
    rows, a missing one is created empty.  Running it again changes
    nothing. *)
Theorem Initialize_creates_missing_tables
  (f : ddl -> option error) (c : Catalog) :
  (forall q, f q = None) ->
  let c' := fst (Initialize f c) in
  snd (Initialize f c) = None
  /\ cat_USER c' = Some (match cat_USER c with Some us => us | None => [] end)
  /\ cat_TOKEN c' =
     Some (match cat_TOKEN c with Some ts => ts | None => [] end)
  /\ Initialize f c' = (c', None).
Proof.
  intros Hf. unfold Initialize, Initialize_steps, Initialize_range.
  rewrite !Hf. destruct c as [[us|] [ts|]]; simpl; rewrite ?Hf; auto.
Qed.

(** X21. [Initialize] stops at the first statement the driver fails and
    names it in the error; what was created before stays.  A failure on
    USER leaves the file as it was; a failure on TOKEN leaves it with the
    USER table made. *)
Theorem Initialize_stops_at_failure
  (f : ddl -> option error) (c : Catalog) (err : error) :
  (f CREATE_TABLE_USER = Some err ->
   Initialize f c = (c, Some (Errorf "create tables: user" err)))
  /\ (f CREATE_TABLE_USER = None -> f CREATE_TABLE_TOKEN = Some err ->
      Initialize f c =
      (mkCatalog (Some (match cat_USER c with Some us => us | None => [] end))
                 (cat_TOKEN c),
       Some (Errorf "create tables: token" err))).
Proof.
  unfold Initialize, Initialize_steps, Initialize_range. split.
  - intros ->. reflexivity.
  - intros -> ->. destruct c as [[us|] ts]; reflexivity.
Qed.

Lemma Initialize_creates_missing_tables_witness :
  fst (Initialize (fun _ => None) (mkCatalog None None))
  = Catalog_of emptyTables.
Proof.
  destruct (Initialize_creates_missing_tables (fun _ => None)
              (mkCatalog None None) (fun _ => eq_refl))
    as (_ & Hu & Ht & _).
  destruct (fst (Initialize (fun _ => None) (mkCatalog None None)))
    as [us ts].
  simpl in Hu, Ht. rewrite Hu, Ht. reflexivity.
Defined.

Lemma Initialize_stops_at_failure_witness :
  Initialize (fun q => match q with
                       | CREATE_TABLE_USER => None
                       | CREATE_TABLE_TOKEN =>
                           Some (ExternalError "disk full")
                       end)
             (mkCatalog None None)
  = (mkCatalog (Some []) None,
     Some (Errorf "create tables: token" (ExternalError "disk full"))).
Proof.
  apply (Initialize_stops_at_failure _ (mkCatalog None None)
           (ExternalError "disk full")); reflexivity.
Defined.

(** The state a handler leaves is the one it found or one the
    authenticator made of it. *)
Lemma loginPageHandler_state (S : Type) (fmtTime : Time -> string)
  (a : Authenticator S) (s : S) (w : ResponseWriter) (r : Request) :
  fst (AuthServer.loginPageHandler fmtTime a s w r) = s
  \/ fst (AuthServer.loginPageHandler fmtTime a s w r)
     = fst (Authenticate_method a s (PostFormValue r "email")
              (PostFormValue r "password")).
Proof.
  unfold AuthServer.loginPageHandler.
  destruct (String.eqb (Method r) "GET"); [now left|].
  destruct (negb (String.eqb (Method r) "POST")); [now left|].
  destruct (ParseForm r); [now left|].
  destruct (Authenticate_method a s _ _) as [s' [[t expires] err]].
  right. destruct (Is err errBadCredentials); [reflexivity|].
  now destruct err.
Qed.

Lemma signupPageHandler_state (S : Type) (fmtTime : Time -> string)
  (a : Authenticator S) (s : S) (w : ResponseWriter) (r : Request) :
  let s' :=
    fst (Register_method a s (PostFormValue r "email")
           (PostFormValue r "password")) in
  fst (AuthServer.signupPageHandler fmtTime a s w r) = s
  \/ fst (AuthServer.signupPageHandler fmtTime a s w r) = s'
  \/ fst (AuthServer.signupPageHandler fmtTime a s w r)
     = fst (Authenticate_method a s' (PostFormValue r "email")
              (PostFormValue r "password")).
Proof.
  unfold AuthServer.signupPageHandler.
  destruct (String.eqb (Method r) "GET"); [now left|].
  destruct (negb (String.eqb (Method r) "POST")); [now left|].
  destruct (ParseForm r); [now left|].
  destruct (Register_method a s _ _) as [s' [err|]]; cbn [fst].
  - right. now left.
  - destruct (loginPageHandler_state S fmtTime a s' w r) as [-> | ->].
    + right. now left.
    + right. now right.
Qed.

Section Startup.

Variable lib : Libraries.

(** A server that serves has the test user in its store. *)
Lemma run_Serving (flags : Flags) (m : Machine) (db : DB) :
  run lib flags m = Serving db ->
  exists u, In u (USER_table (tables (db_conn db))) /\ ID u = "hunter".
Proof.
  unfold run.
  destruct (if flag_clear flags then _ else _) as [file|]; [|discriminate].
  destruct (Open_err m); [discriminate|].
  destruct (Initialize _ _) as [cat' [e|]]; [discriminate|].
  destruct (Tables_of cat') as [tb|]; [|discriminate].
  destruct (RegisterUser _ _ _ _ _) as [c [e|]] eqn:R; [discriminate|].
  intros H. inversion H; subst; clear H. simpl.
  apply RegisterUser_inserted in R as (hash & _ & _ & Hus & _).
  rewrite Hus. eexists. split; [apply in_or_app; right; left; reflexivity|].
  reflexivity.
Qed.

(** No request removes a user. *)
Lemma after_request_users_grow (fmtTime : Time -> string) (env : Ambient)
  (d : DB) (p : page) (w : ResponseWriter) (r : Request) (u : UserRow) :
  In u (USER_table (tables (db_conn d))) ->
  In u (USER_table
          (tables (db_conn (after_request lib fmtTime env d p w r)))).
Proof.
  intros Hu. unfold after_request.
  set (email := PostFormValue r "email").
  set (password := PostFormValue r "password").
  pose proof (after_call_users_grow lib d (call_Register email password) u Hu)
    as HR.
  destruct p.
  - destruct (loginPageHandler_state DB fmtTime
                (DBAuthenticator_Authenticator lib env) d w r) as [-> | ->];
      [exact Hu|].
    exact (after_call_users_grow lib d
             (call_Authenticate env email password) u Hu).
  - destruct (signupPageHandler_state DB fmtTime
                (DBAuthenticator_Authenticator lib env) d w r)
      as [-> | [-> | ->]]; [exact Hu | exact HR |].
    exact (after_call_users_grow lib _
             (call_Authenticate env email password) u HR).
Qed.

(** The users a server starts with stay in its file. *)
Lemma served_users_grow (db : DB) (tb : Tables) (u : UserRow) :
  served lib db tb ->
  In u (USER_table (tables (db_conn db))) -> In u (USER_table tb).
Proof.
  intros Hs Hu. induction Hs as [|d fmtTime env p w r _ IH | d c _ IH].
  - exact Hu.
  - now apply after_request_users_grow.
  - now apply after_call_users_grow.
Qed.

(** X22. The server starts once on a database.  [run] registers the test
    user every time, and nothing the server does while it serves removes a
    user.  So on the file a serving run has left, as it was when serving
    began or after any requests to the login and signup pages and any
    calls of the package, a second run without [-clear] never serves: it
    returns an error, and when opening the database and creating the
    tables go through, that error is the refused registration, wrapped as
    the test user's. *)
Theorem run_again_fails (flags flags' : Flags) (m m' : Machine)
  (db db' : DB) :
  run lib flags m = Serving db ->
  served lib db (tables (db_conn db')) ->
  flag_clear flags' = false ->
  dbfile m' = dbfile_of db' ->
  exists err,
    run lib flags' m' = Failed err
    /\ (Open_err m' = None -> (forall q, ddl_failure m' q = None) ->
        exists cause, err = Errorf "test user" cause).
Proof.
  intros Hrun Hserved Hclear Hfile.
  apply run_Serving in Hrun as (u & Hu & Hid).
  apply (served_users_grow db _ u Hserved) in Hu.
  unfold run. rewrite Hclear, Hfile. unfold dbfile_of.
  destruct (Open_err m').
  { eexists. split; [reflexivity | discriminate]. }
  destruct (Initialize _ _) as [cat' [e|]] eqn:I.
  { eexists. split; [reflexivity|]. intros _ Hd.
    unfold Initialize, Initialize_steps, Initialize_range in I.
    rewrite !Hd in I. discriminate. }
  apply Initialize_existing in I. subst cat'.
  unfold Tables_of, Catalog_of. cbn [cat_USER cat_TOKEN].
  destruct (RegisterUser _ _ _ _ _) as [c [e|]] eqn:R.
  { eexists. split; [reflexivity|]. eauto. }
  exfalso.
  apply RegisterUser_inserted in R as (hash & _ & _ & _ & _ & Hfresh).
  destruct (Hfresh u Hu) as [Hne _]. contradiction.
Qed.

(** X23. [-clear] needs a file to remove and keeps nothing of it.
    Without a database file [run -clear] fails at once; with one, when
    nothing else fails, the server serves on a store that holds the test
    user and nothing more, no other user and no token. *)
Theorem run_clear (flags : Flags) (m : Machine) (hash : list Z) :
  flag_clear flags = true ->
  (dbfile m = None -> exists err, run lib flags m = Failed err)
  /\ (dbfile m <> None ->
      Remove_err m = None -> Open_err m = None ->
      (forall q, ddl_failure m q = None) ->
      statement_failure m INSERT_INTO_USER = None ->
      mail_ParseAddress lib "hunter@hherman.com" = None ->
      bcrypt_GenerateFromPassword lib (bytes_of_string "test123")
        bcrypt_DefaultCost = inl hash ->
      exists db,
        run lib flags m = Serving db
        /\ tables (db_conn db) =
           mkTables [mkUserRow "hunter" "hunter@hherman.com" hash false] []).
Proof.
  intros Hclear. unfold run. rewrite Hclear. split.
  - intros ->. eauto.
  - intros Hfile Hrm Hop Hddl Hins Hparse Hhash.
    destruct (dbfile m) as [c|]; [|contradiction].
    rewrite Hrm, Hop.
    unfold Initialize, Initialize_steps, Initialize_range. rewrite !Hddl.
    cbn [create_if_not_exists cat_USER cat_TOKEN Tables_of].
    rewrite (RegisterUser_succeeds lib
               (mkConn (mkTables [] []) (statement_failure m))
               "hunter" "hunter@hherman.com" "test123" hash
               Hparse Hhash Hins) by (intros u []).
    eexists. split; reflexivity.
Qed.

End Startup.

(** A first run that finds no file, one signup, and the run after it. *)
Lemma run_again_fails_witness :
  let flags := mkFlags false false "auth.sqlite" in
  let db' :=
    after_request sampleLibraries sampleFormat sampleAmbient firstRunDB
      page_signup emptyResponse (signupPOST "a@x.com" "pw") in
  map ID (USER_table (tables (db_conn db'))) = ["hunter"; "a@x.com"]
  /\ exists cause,
       run sampleLibraries flags
         (mkMachine (dbfile_of db') None None (fun _ => None) no_failure
            None None)
       = Failed (Errorf "test user" cause).
Proof.
  intros flags db'. split; [reflexivity|].
  destruct (run_again_fails sampleLibraries flags flags
              (mkMachine None None None (fun _ => None) no_failure None None)
              (mkMachine (dbfile_of db') None None (fun _ => None) no_failure
                 None None)
              firstRunDB db'
              eq_refl
              (@served_request sampleLibraries firstRunDB firstRunDB
                 sampleFormat sampleAmbient page_signup emptyResponse
                 (signupPOST "a@x.com" "pw")
                 (served_start sampleLibraries firstRunDB))
              eq_refl eq_refl)
    as (err & E & Hcause).
  destruct (Hcause eq_refl (fun _ => eq_refl)) as (cause & ->).
  exists cause. exact E.
Defined.

Lemma run_clear_witness :
  (exists err,
      run sampleLibraries (mkFlags true false "auth.sqlite")
        (mkMachine None None None (fun _ => None) no_failure None None)
      = Failed err)
  /\ exists db,
      run sampleLibraries (mkFlags true false "auth.sqlite")
        (mkMachine (Some (Catalog_of (tables twoTokens))) None None
           (fun _ => None) no_failure None None)
      = Serving db
      /\ TOKEN_table (tables (db_conn db)) = [].
Proof.
  split.
  - apply (run_clear sampleLibraries (mkFlags true false "auth.sqlite")
             (mkMachine None None None (fun _ => None) no_failure None None)
             [] eq_refl).
    reflexivity.
  - destruct (proj2 (run_clear sampleLibraries
                       (mkFlags true false "auth.sqlite")
                       (mkMachine (Some (Catalog_of (tables twoTokens)))
                          None None (fun _ => None) no_failure None None)
                       (10 :: bytes_of_string "test123") eq_refl))
      as (db & E & Htb); try reflexivity; [discriminate|].
    exists db. split; [exact E|]. now rewrite Htb.
Defined.

(* ================================================================= *)
(** ** What the handlers never do *)

(** X24. [AuthFilter.Handler] runs the wrapped handler only on a token
    that was parsed from the [auth_token] cookie and that the validator
    accepted; every other request that gets an answer gets the redirect
    to the login URL. *)
Theorem Handler_guards (S : Type) (a : AuthFilter S)
  (h : Token -> ResponseWriter -> Request -> ResponseWriter)
  (s : S) (w : ResponseWriter) (r : Request) (served : Served) :
  AuthFilter.Handler a h s w r = Return served ->
  response served = http_Redirect w r (redirectURL a r) StatusFound
  \/ exists v t,
      Cookie r "auth_token" = inl v
      /\ UnmarshalText zeroToken (bytes_of_string v) = Return (t, None)
      /\ Validate (filter_Validator a) s t = None
      /\ served = mkServed (h t w r) [].
Proof.
  unfold AuthFilter.Handler, redirectURL.
  destruct (Cookie r "auth_token") as [v|e].
  - destruct (UnmarshalText zeroToken (bytes_of_string v))
      as [[t [e|]] | m |] eqn:U; try discriminate.
    + intros H. inversion H. now left.
    + destruct (Validate (filter_Validator a) s t) eqn:V;
        intros H; inversion H; [now left|].
      right. exists v, t. auto.
  - intros H. inversion H. now left.
Qed.

Lemma Handler_guards_witness :
  let a := mkAuthFilter (DBAuthenticator_Validator 0) "/login" in
  let h := fun (t : Token) (w : ResponseWriter) (_ : Request) =>
             Write w (string_of_bytes t) in
  let r := securedGET "AQID" in
  let served :=
    mkServed (http_Redirect emptyResponse r "/login?redirect=%2Fsecured"
                StatusFound)
      ["error: redirecting: parsing auth_token cookie: "
       ++ "token: expected 16 bytes, was 4"] in
  AuthFilter.Handler a h emptyDB emptyResponse r = Return served
  /\ (response served
      = http_Redirect emptyResponse r (redirectURL a r) StatusFound
      \/ exists v t,
          Cookie r "auth_token" = inl v
          /\ UnmarshalText zeroToken (bytes_of_string v) = Return (t, None)
          /\ Validate (filter_Validator a) emptyDB t = None
          /\ served = mkServed (h t emptyResponse r) []).
Proof.
  intros a h r served. split; [reflexivity|].
  apply (Handler_guards DB a h emptyDB emptyResponse r served).
  reflexivity.
Defined.

(** X25. The login handler sets the cookie on success only: when the
    response comes back with a [Set-Cookie] header it did not have
    before, the request was a POST whose form parsed and [Authenticate]
    returned no error for the posted email address and password. *)
Theorem loginPageHandler_cookie_only_on_success
  (S : Type) (fmtTime : Time -> string) (a : Authenticator S)
  (s : S) (w : ResponseWriter) (r : Request) :
  Values_Get (Header w) "Set-Cookie" = "" ->
  Values_Get (Header (snd (AuthServer.loginPageHandler fmtTime a s w r)))
    "Set-Cookie" <> "" ->
  Method r = "POST" /\ ParseForm r = None
  /\ snd (snd (Authenticate_method a s (PostFormValue r "email")
                 (PostFormValue r "password"))) = None.
Proof.
  intros Hw. unfold AuthServer.loginPageHandler.
  assert (Herr : forall msg code,
             Values_Get (Header (http_Error w msg code)) "Set-Cookie" = "").
  { intros msg code. unfold http_Error, Write, WriteHeader.
    destruct (status w); simpl;
      rewrite !Values_Get_Header_Set_other by discriminate; exact Hw. }
  destruct (String.eqb (Method r) "GET") eqn:Eg.
  { cbn [snd]. unfold Write, WriteHeader.
    destruct (status w); simpl; congruence. }
  destruct (String.eqb (Method r) "POST") eqn:Ep; cbn [negb snd];
    [|rewrite Herr; congruence].
  apply String.eqb_eq in Ep.
  destruct (ParseForm r); [cbn [snd]; rewrite Herr; congruence|].
  destruct (Authenticate_method a s _ _) as [s' [[t expires] err]].
  destruct err as [e|]; [|auto].
  cbn [Is]. destruct (errors_Is e errBadCredentials); cbn [snd];
    rewrite Herr; congruence.
Qed.

Lemma loginPageHandler_cookie_only_on_success_witness :
  snd (snd (DBAuthenticator.Authenticate sampleLibraries sampleAmbient
              oneUserDB "lol@localhost" "pw1")) = None.
Proof.
  apply (loginPageHandler_cookie_only_on_success DB sampleFormat
           (DBAuthenticator_Authenticator sampleLibraries sampleAmbient)
           oneUserDB emptyResponse
           (mkRequest "POST" "/login" "" [] [] None
              [("email", "lol@localhost"); ("password", "pw1")])).
  - reflexivity.
  - vm_compute. discriminate.
Defined.

(** X26. [GenerateToken] never replaces a stored token: when the random
    bytes are those of a token that is stored already, it returns an
    error with them and leaves the store as it was, so the token stays
    with its owner. *)
Theorem GenerateToken_refuses_stored_token
  (rnd : Token * option error) (db : conn) (uid : string)
  (start end_ : Time) (r : TokenRow) :
  In r (TOKEN_table (tables db)) -> TOKEN r = fst rnd ->
  exists err,
    GenerateToken rnd db uid start end_ = (db, (fst rnd, Some err)).
Proof.
  intros Hin Htok. unfold GenerateToken. destruct rnd as [t [e|]]; [eauto|].
  destruct (failure db INSERT_INTO_TOKEN); [eauto|].
  replace (existsb _ _) with true; [eauto|].
  symmetry. apply existsb_exists. exists r. split; [assumption|].
  apply bytes_eqb_eq. exact Htok.
Qed.

Lemma GenerateToken_refuses_stored_token_witness :
  exists err,
    GenerateToken (tokenOld, None) twoTokens "other"
      (Time_UnixMilli 0) (Time_UnixMilli 9000)
    = (twoTokens, (tokenOld, Some err)).
Proof.
  apply (GenerateToken_refuses_stored_token (tokenOld, None) twoTokens
           "other" (Time_UnixMilli 0) (Time_UnixMilli 9000)
           (mkTokenRow "test" tokenOld 0 1000)).
  - left. reflexivity.
  - reflexivity.
Defined.

Lemma UnmarshalText_short_text_witness :
  exists (t' : Token) (err : error),
    UnmarshalText zeroToken (bytes_of_string "AQIDBAUGBwgJCgsMDQ4P/w=")
    = Return (t', Some err).
Proof.
  apply (UnmarshalText_short_text zeroToken
           (bytes_of_string "AQIDBAUGBwgJCgsMDQ4P/w=")).
  - reflexivity.
  - vm_compute. lia.
Defined.
